(** * SLATE: the communication-avoiding LU driver [getrf_ca] and the band
      solver driver [gbsv]

    The development embeds two drivers of the library:

    - [getrf_ca] (tiled LU factorization with lookahead), in its three layers:
      the dispatch on the execution target, the resolution of the options,
      and [internal::specialization::getrf_ca], the loop over the panels;
    - [gbsv] (band factor-and-solve), in the same three layers.

    Conventions.
    - [int64_t] values are integers of [Z].  Signed overflow is undefined in
      C++, so sums such as [k+1+lookahead] are written without wrap-around;
      the narrowing conversions to [int] that the code performs are defined
      behaviour and are written out ([to_int]).
    - [std::map<Option, Value>] is a [gmap]; [opts.at(key)] throwing
      [std::out_of_range] is the lookup returning [None].
    - [assert(c)] aborts the process when [c] is false, unless the library
      was built with [NDEBUG], in which case it does nothing.
    - The tile storage of a matrix is a finite map from tile coordinates
      to tiles, as in the library.  The state is the logical, distributed
      matrix: every tile appears once, at its owner. *)

From Stdlib Require Import ZArith List Lia QArith Qabs.
From stdpp Require Import base option list list_numbers gmap fin_maps.

Open Scope Z_scope.

(** ** Enumerations *)

(** [enum class Target], the execution targets named in the drivers. *)
Module Target.
Inductive t := Host | HostTask | HostNest | HostBatch | Devices.

#[global] Instance eq_dec : EqDecision t.
Proof. solve_decision. Defined.

(** The case labels of a [switch (target)], in the order of the source. *)
Definition all : list t := [Host; HostTask; HostNest; HostBatch; Devices].
End Target.

(** [enum class Option], the keys of the options map read by the drivers. *)
Module Option.
Inductive t := Lookahead | InnerBlocking | MaxPanelThreads | Target.

#[global] Instance eq_dec : EqDecision t.
Proof. solve_decision. Defined.

#[global] Instance countable : Countable t.
Proof.
  refine (inj_countable'
    (fun o => match o with
              | Lookahead => 0%nat | InnerBlocking => 1%nat
              | MaxPanelThreads => 2%nat | Target => 3%nat end)
    (fun n => match n with
              | 0%nat => Lookahead | 1%nat => InnerBlocking
              | 2%nat => MaxPanelThreads | _ => Target end) _).
  by intros [].
Defined.
End Option.

Inductive Layout := ColMajor | RowMajor.
Inductive Side := Left | Right.
Inductive Uplo := Upper | Lower.
Inductive Diag := NonUnit | Unit.

#[global] Instance Layout_eq_dec : EqDecision Layout.
Proof. solve_decision. Defined.

(** ** Options *)

(** [Value]: the drivers read the integer member [i_] of the option value. *)
Record Value := mkValue { i_ : Z }.

Abbreviation Options := (gmap Option.t Value).

(** The build and the host: whether assertions are compiled out, the number
    of OpenMP threads, the integer codes of the [Target] enumerators (the
    enumeration is declared in the library's headers) and [sizeof(Pivot)]. *)
Class Env := {
  NDEBUG : bool;
  omp_get_max_threads : Z;
  Target_code : Target.t -> Z;
  sizeof_Pivot : Z
}.

(** [Target(v)]: the enumerator whose code is [v], if any. *)
Definition Target_of_code `{Env} (v : Z) : option Target.t :=
  List.find (fun t => bool_decide (Target_code t = v)) Target.all.

(** Outcome of a call: it returns, or an assertion aborted the process. *)
Inductive result (A : Type) :=
| Ok (a : A)
| Aborted.
Arguments Ok {A} a.
Arguments Aborted {A}.

#[global] Instance result_ret : MRet result := fun _ a => Ok a.
#[global] Instance result_bind : MBind result := fun _ _ f r =>
  match r with Ok a => f a | Aborted => Aborted end.

(** [assert(c)] *)
Definition assert `{Env} (c : bool) : result unit :=
  if NDEBUG || c then Ok tt else Aborted.

(** Conversion of an [int64_t] to [int] (two's complement, 32 bits). *)
Definition to_int (z : Z) : Z := (z + 2 ^ 31) mod 2 ^ 32 - 2 ^ 31.

(** The three [try { ... } catch (std::out_of_range&) { ... }] blocks shared
    by [getrf_ca<target>] and [gbsv<target>]. *)
Section options.
Context `{Env}.

(** getrf_ca, lines 389-396; gbsv, lines 90-97 *)
Definition opt_lookahead (opts : Options) : result Z :=
  match opts !! Option.Lookahead with
  | Some v =>
      let lookahead := i_ v in
      _ ← assert (0 <=? lookahead); Ok lookahead
  | None => Ok 1
  end.

(** getrf_ca, lines 398-405; gbsv, lines 99-106 *)
Definition opt_ib (opts : Options) : result Z :=
  match opts !! Option.InnerBlocking with
  | Some v =>
      let ib := i_ v in
      _ ← assert (0 <=? ib); Ok ib
  | None => Ok 16
  end.

(** getrf_ca, lines 407-414 *)
Definition opt_max_panel_threads (opts : Options) : result Z :=
  match opts !! Option.MaxPanelThreads with
  | Some v =>
      let max_panel_threads := i_ v in
      _ ← assert ((1 <=? max_panel_threads)
                  && (max_panel_threads <=? omp_get_max_threads));
      Ok max_panel_threads
  | None => Ok (Z.max (omp_get_max_threads ÷ 2) 1)
  end.

(** gbsv, lines 108-115: the assertion is weaker there. *)
Definition opt_max_panel_threads_gbsv (opts : Options) : result Z :=
  match opts !! Option.MaxPanelThreads with
  | Some v =>
      let max_panel_threads := i_ v in
      _ ← assert (0 <=? max_panel_threads); Ok max_panel_threads
  | None => Ok (Z.max (omp_get_max_threads ÷ 2) 1)
  end.

(** [try { target = Target(opts.at(Option::Target).i_); }
     catch (std::out_of_range&) { target = Target::HostTask; }]
    followed by the [switch]: [Host] and [HostTask] share a case; a value
    that is no enumerator matches no case. *)
Definition opt_target (opts : Options) : option Target.t :=
  match opts !! Option.Target with
  | Some v =>
      match Target_of_code (i_ v) with
      | Some Target.Host | Some Target.HostTask => Some Target.HostTask
      | Some t => Some t
      | None => None
      end
  | None => Some Target.HostTask
  end.
End options.

(** ** Matrices, pivots and kernels *)

(** Modelled from the spec: the pivot record (class [Pivot], declared in the
    library's headers).  A record is local to one panel; the record at
    position [r] of a sequence exchanges row [r] of the panel with the row
    at offset [elementOffset] of the panel's tile [tileIndex]. *)
Record Pivot := mkPivot { tileIndex : Z; elementOffset : Z }.

#[global] Instance Pivot_eq_dec : EqDecision Pivot.
Proof. solve_decision. Defined.

Abbreviation Pivots := (list (list Pivot)).

(** [A.sub(i1, i2, j1, j2)]: the view on tile rows [i1..i2] and tile
    columns [j1..j2], in the tile coordinates of [A]. *)
Record Sub := sub { i1 : Z; i2 : Z; j1 : Z; j2 : Z }.

(** [V.sub(a, b, c, d)] for a view [V]: coordinates relative to the view. *)
Definition sub_of (V : Sub) (a b c d : Z) : Sub :=
  sub (i1 V + a) (i1 V + b) (j1 V + c) (j1 V + d).

Definition in_sub (V : Sub) (ij : Z * Z) : bool :=
  (i1 V <=? ij.1) && (ij.1 <=? i2 V) && (j1 V <=? ij.2) && (ij.2 <=? j2 V).

Definition sub_coords (V : Sub) : list (Z * Z) :=
  j ← seqZ (j1 V) (j2 V - j1 V + 1);
  i ← seqZ (i1 V) (i2 V - i1 V + 1);
  [(i, j)].

(** What the driver reads of the matrix handle: [A.mt()], [A.nt()],
    [A.tileMb(i)], [A.tileNb(j)] and [A.tileRank(i, j)]. *)
Record MatrixDesc := {
  mt : Z;
  nt : Z;
  tileMb : Z -> Z;
  tileNb : Z -> Z;
  tileRank : Z -> Z -> Z
}.

(** The compute kernels live in the library's [internal] namespace, apart
    from the drivers; the driver is generic in them.  Every kernel is
    selected by the execution target, as the template argument is in
    the source.

    - [panel_getrf_ca col diag_len ib max_panel_threads]: the panel kernel
      [internal::getrf_ca<Target::HostTask>] on the tiles [col] of the panel;
      it yields the tiles of the panel, the tiles of the panel workspace and
      the entries of the pivot sequence.
    - [permuteRows_col target layout pivot col]: the row interchanges of
      [internal::permuteRows] on the tiles [col] of one block column.
    - [tile_trsm target side uplo diag Akk B]: one tile of [internal::trsm]
      with alpha = 1, the triangle taken from tile [Akk].
    - [tile_gemm target Aik Bkj Cij]: one tile of [internal::gemm] with
      alpha = -1 and beta = 1, that is [Cij - Aik * Bkj]. *)
Class Kernels := {
  tile : Type;
  tile_inhabited :: Inhabited tile;
  panel_getrf_ca :
    list tile -> Z -> Z -> Z -> list tile * list tile * list Pivot;
  permuteRows_col : Target.t -> Layout -> list Pivot -> list tile -> list tile;
  tile_trsm : Target.t -> Side -> Uplo -> Diag -> tile -> tile -> tile;
  tile_gemm : Target.t -> tile -> tile -> tile -> tile
}.

(** One entry of a [BcastListTag]: [{i, j, {destinations}, tag}]. *)
Record BcastTag := mkBcastTag {
  bc_i : Z; bc_j : Z; bc_dest : list Sub; bc_tag : Z
}.

(** The calls that [internal::specialization::getrf_ca] issues.  Scheduling
    arguments (priority, tag, queue index, layout) are kept as the source
    passes them; [None] stands for arguments left to their defaults. *)
Inductive call :=
| AllocateBatchArrays
| ReserveDeviceWorkspace
| PivotsResize (n : Z)                          (* pivots.resize(n) *)
| EmptyLike                                     (* Awork = A.emptyLike() *)
| PivotResize (k len : Z)                       (* pivots.at(k).resize(len) *)
| InsertLocalTiles (V : Sub)                    (* V of Awork *)
| PanelGetrf (V W : Sub) (k diag_len ib max_panel_threads priority : Z)
| MPI_Bcast (k : Z) (root : Z)                  (* of pivots.at(k), as bytes *)
| PermuteRows (t : Target.t) (V : Sub) (k : Z) (layout : Layout)
    (args : option (Z * Z * Z))                 (* priority, tag, queue *)
| Copy (src dst : Sub)                          (* Awork view to A view *)
| ListBcast (t : Target.t) (i j : Z) (dest : list Sub) (layout : Layout)
    (tag life_factor : Z) (is_shared : bool)
| Clear (V : Sub)                               (* V of Awork *)
| Trsm (t : Target.t) (side : Side) (uplo : Uplo) (diag : Diag)
    (k : Z) (V : Sub) (priority : Z) (layout : Layout) (queue : Z)
| ListBcastMT (t : Target.t) (l : list BcastTag) (layout : Layout)
    (args : option (Z * bool))                  (* life factor, is_shared *)
| TileBcast (i j : Z) (dest : Sub) (layout : Layout) (tag : Z)
| Gemm (t : Target.t) (VA VB VC : Sub) (layout : Layout) (priority queue : Z)
| ReleaseDiag (k : Z)
| ReleasePanel (k : Z)
| TileUpdateAllOrigin
| ClearWorkspace.

Section storage.
Context `{Kernels}.

(** The objects the driver works on: the tiles of [A], the pivot table
    and the tiles of the workspace [Awork]. *)
Record state := mkState {
  mat_A : gmap (Z * Z) tile;
  pivots : Pivots;
  Awork : gmap (Z * Z) tile
}.

(** The tiles of block column [j] of a view, top to bottom. *)
Definition col_tiles (m : gmap (Z * Z) tile) (V : Sub) (j : Z) : list tile :=
  (fun i => m !!! (i, j)) <$> seqZ (i1 V) (i2 V - i1 V + 1).

(** Overwrite the tiles selected by [P]; tiles that do not exist are not
    created. *)
Definition region_update (P : Z * Z -> bool) (f : Z * Z -> tile -> tile)
    (m : gmap (Z * Z) tile) : gmap (Z * Z) tile :=
  map_imap (fun ij t => Some (if P ij then f ij t else t)) m.

(** Put back the tiles [l] of block column [ij.2] of the view [V]. *)
Definition col_entry (V : Sub) (l : list tile) (ij : Z * Z) (t : tile) : tile :=
  nth (Z.to_nat (ij.1 - i1 V)) l t.

(** A kernel assigns the entries of the pivot vector it is handed. *)
Definition assign_pivots (new old : list Pivot) : list Pivot :=
  imap (fun r p => nth r new p) old.
End storage.

(** ** What a call does to the matrix, the pivot table and the workspace *)

Section exec.
Context `{Kernels}.

(** Modelled from the spec: the internal routines [internal::permuteRows],
    [internal::trsm], [internal::gemm], [internal::copy] and the tile
    store's [insertLocalTiles] and [clear], which the driver calls and
    does not define.  As the spec has it, a routine on a view works
    through the view block column by block column and tile by tile: the
    interchanges go "to every column in range", the trailing update is
    "the same solve/broadcast/update" as the one of a lookahead column.
    [clear] on a view removes the tiles of the view.  Broadcasts
    replicate tiles and leave the logical matrix as it is; so do the
    device calls. *)
Definition exec (c : call) (s : state) : state :=
  match c with
  | PivotsResize n =>
      mkState (mat_A s) (resize (Z.to_nat n) [] (pivots s)) (Awork s)
  | EmptyLike =>
      mkState (mat_A s) (pivots s) ∅
  | PivotResize k len =>
      mkState (mat_A s)
        (alter (resize (Z.to_nat len) (mkPivot 0 0)) (Z.to_nat k) (pivots s))
        (Awork s)
  | InsertLocalTiles V =>
      mkState (mat_A s) (pivots s)
        (foldr (fun ij m => <[ij := inhabitant]> m) (Awork s) (sub_coords V))
  | PanelGetrf V W k diag_len ib max_panel_threads _ =>
      let '(a, w, p) :=
        panel_getrf_ca (col_tiles (mat_A s) V (j1 V)) diag_len ib
          max_panel_threads in
      mkState (region_update (in_sub V) (col_entry V a) (mat_A s))
        (alter (assign_pivots p) (Z.to_nat k) (pivots s))
        (region_update (in_sub W) (col_entry W w) (Awork s))
  | PermuteRows t V k layout _ =>
      let A := mat_A s in
      let pivot := pivots s !!! Z.to_nat k in
      mkState
        (region_update (in_sub V)
           (fun ij => col_entry V
              (permuteRows_col t layout pivot (col_tiles A V ij.2)) ij) A)
        (pivots s) (Awork s)
  | Copy src dst =>
      let Aw := Awork s in
      mkState
        (region_update (in_sub dst)
           (fun ij _ => Aw !!! (i1 src + (ij.1 - i1 dst),
                                j1 src + (ij.2 - j1 dst))) (mat_A s))
        (pivots s) (Awork s)
  | Clear V =>
      mkState (mat_A s) (pivots s)
        (filter (fun kv => ¬ in_sub V kv.1) (Awork s))
  | Trsm t side uplo diag k V _ _ _ =>
      let A := mat_A s in
      mkState
        (region_update (in_sub V)
           (fun _ b => tile_trsm t side uplo diag (A !!! (k, k)) b) A)
        (pivots s) (Awork s)
  | Gemm t VA VB VC _ _ _ =>
      let A := mat_A s in
      mkState
        (region_update (in_sub VC)
           (fun ij c =>
              tile_gemm t (A !!! (i1 VA + (ij.1 - i1 VC), j1 VA))
                          (A !!! (i1 VB, j1 VB + (ij.2 - j1 VC))) c) A)
        (pivots s) (Awork s)
  | AllocateBatchArrays | ReserveDeviceWorkspace | MPI_Bcast _ _
  | ListBcast _ _ _ _ _ _ _ _ | ListBcastMT _ _ _ _ | TileBcast _ _ _ _ _
  | ReleaseDiag _ | ReleasePanel _ | TileUpdateAllOrigin | ClearWorkspace =>
      s
  end.

(** The calls run in program order. *)
Definition run (cs : list call) (s : state) : state :=
  foldl (fun s c => exec c s) s cs.
End exec.

(** ** internal::specialization::getrf_ca (lines 26-376) *)

Section getrf_ca.
Context `{Env} `{Kernels}.
Context (target : Target.t) (D : MatrixDesc).
Context (ib max_panel_threads lookahead : Z).

Definition host_layout : Layout := ColMajor.
Definition target_layout : Layout :=
  if decide (target = Target.Devices) then RowMajor else ColMajor.

Definition priority_one : Z := 1.
Definition priority_zero : Z := 0.
Definition A_nt : Z := nt D.
Definition A_mt : Z := mt D.
Definition min_mt_nt : Z := Z.min (mt D) (nt D).
Definition life_factor_one : Z := 1.
Definition is_shared : bool := 0 <? lookahead.

(** Lines 177-183: the tiles of the panel, sent to the right. *)
Definition panel_bcast_list (k : Z) : list BcastTag :=
  (fun i => mkBcastTag i k [sub i i (k+1) (A_nt-1)] i)
    <$> seqZ (k+1) (A_mt - (k+1)).

(** Lines 270-276: the tiles of row [k], sent down the trailing columns. *)
Definition trailing_bcast_list (k : Z) : list BcastTag :=
  (fun j => mkBcastTag k j [sub (k+1) (A_mt-1) j j] (j + A_mt))
    <$> seqZ (k+1+lookahead) (A_nt - (k+1+lookahead)).

(** Lines 98-155: the panel. *)
Definition panel_task (k diag_len : Z) (Apanel : Sub) : list call :=
  [ PanelGetrf (sub k (A_mt-1) k k) Apanel k diag_len ib
      max_panel_threads priority_one;
    MPI_Bcast k (tileRank D k k);
    PermuteRows Target.HostTask (sub k (A_mt-1) k k) k host_layout
      (Some (priority_one, to_int (k+1), 0));
    Copy (sub_of Apanel 0 0 0 0) (sub k k k k);
    ListBcast target k k
      [sub (k+1) (A_mt-1) k k; sub k k (k+1) (A_nt-1)]
      host_layout (to_int k) life_factor_one true;
    Clear Apanel ].

(** Lines 161-202: the triangular solve below the diagonal tile. *)
Definition panel_trsm_task (k : Z) : list call :=
  [ Trsm target Right Upper NonUnit k (sub (k+1) (A_mt-1) k k)
      priority_one ColMajor 0;
    ListBcastMT target (panel_bcast_list k) ColMajor
      (Some (life_factor_one, is_shared)) ].

(** Lines 209-243: one lookahead column. *)
Definition lookahead_task (k j : Z) : list call :=
  let tag_j := to_int j in
  [ PermuteRows target (sub k (A_mt-1) j j) k target_layout
      (Some (priority_one, tag_j, j-k+1));
    Trsm target Left Lower Unit k (sub k k j j) priority_one ColMajor (j-k+1);
    TileBcast k j (sub (k+1) (A_mt-1) j j) ColMajor tag_j;
    Gemm target (sub (k+1) (A_mt-1) k k) (sub k k j j)
      (sub (k+1) (A_mt-1) j j) target_layout priority_one (j-k+1) ].

(** Lines 251-307: the trailing submatrix. *)
Definition trailing_task (k : Z) : list call :=
  let tag_kl1 := to_int (k+1+lookahead) in
  [ PermuteRows Target.HostTask (sub k (A_mt-1) (k+1+lookahead) (A_nt-1)) k
      host_layout (Some (priority_zero, tag_kl1, 1));
    Trsm target Left Lower Unit k (sub k k (k+1+lookahead) (A_nt-1))
      priority_zero ColMajor 1;
    ListBcastMT target (trailing_bcast_list k) ColMajor None;
    Gemm target (sub (k+1) (A_mt-1) k k) (sub k k (k+1+lookahead) (A_nt-1))
      (sub (k+1) (A_mt-1) (k+1+lookahead) (A_nt-1))
      target_layout priority_zero 1 ].

(** Lines 319-351: release of the device copies. *)
Definition release_tasks (k : Z) : list call :=
  if decide (target = Target.Devices)
  then ReleaseDiag k :: (if is_shared then [ReleasePanel k] else [])
  else [].

(** Lines 93-353: the body of the loop over the panels. *)
Definition getrf_ca_step (k : Z) : list call :=
  let diag_len := Z.min (tileMb D k) (tileNb D k) in
  let Apanel := sub k (A_mt-1) k k in
  [ PivotResize k diag_len; InsertLocalTiles Apanel ]
  ++ panel_task k diag_len Apanel
  ++ panel_trsm_task k
  ++ (j ← seqZ (k+1) (Z.min (k+1+lookahead) A_nt - (k+1)); lookahead_task k j)
  ++ (if k+1+lookahead <? A_nt then trailing_task k else [])
  ++ release_tasks k.

(** Lines 361-368: the interchanges to the left of the panels. *)
Definition pivot_left (k : Z) : list call :=
  if 0 <? k
  then [ PermuteRows Target.HostTask (sub k (A_mt-1) 0 (k-1)) k host_layout
           None ]
  else [].

(** The calls of [internal::specialization::getrf_ca], in program order. *)
Definition getrf_ca_calls : list call :=
  (if decide (target = Target.Devices)
   then [AllocateBatchArrays; ReserveDeviceWorkspace] else [])
  ++ [ PivotsResize min_mt_nt; EmptyLike ]
  ++ (k ← seqZ 0 min_mt_nt; getrf_ca_step k)
  ++ [ TileUpdateAllOrigin ]
  ++ (k ← seqZ 0 min_mt_nt; pivot_left k)
  ++ [ ClearWorkspace ].

(** The driver on its two reference arguments [A] and [pivots]; the
    workspace is a local of the function. *)
Definition specialization_getrf_ca (A : gmap (Z * Z) tile) (pv : Pivots)
    : gmap (Z * Z) tile * Pivots :=
  let s := run getrf_ca_calls (mkState A pv ∅) in
  (mat_A s, pivots s).
End getrf_ca.

(** ** getrf_ca<target> (lines 385-419) and getrf_ca (lines 474-502) *)

Section getrf_ca_drivers.
Context `{Env} `{Kernels}.

(** Version with the target as template parameter: the three options are
    resolved, then the specialization runs.  [max_panel_threads] is an
    [int64_t] here and an [int] parameter of the specialization. *)
Definition getrf_ca_target (target : Target.t) (D : MatrixDesc)
    (A : gmap (Z * Z) tile) (pv : Pivots) (opts : Options)
    : result (gmap (Z * Z) tile * Pivots) :=
  lookahead ← opt_lookahead opts;
  ib ← opt_ib opts;
  max_panel_threads ← opt_max_panel_threads opts;
  Ok (specialization_getrf_ca target D ib (to_int max_panel_threads)
        lookahead A pv).

(** The entry point.  It is declared [void]: the value handed back to the
    caller is the unit value, next to the matrix and the pivot table it
    has updated through its reference arguments. *)
Definition getrf_ca (D : MatrixDesc) (A : gmap (Z * Z) tile) (pv : Pivots)
    (opts : Options) : result (unit * (gmap (Z * Z) tile * Pivots)) :=
  match opt_target opts with
  | Some target => r ← getrf_ca_target target D A pv opts; Ok (tt, r)
  | None => Ok (tt, (A, pv))
  end.
End getrf_ca_drivers.

(** ** gbsv (src/gbsv.cc) *)

(** The band factorization [gbtrf] and the band solve [gbtrs] are drivers
    of their own; [gbsv] is generic in them.  Both take their matrix and
    pivot arguments by reference. *)
Class BandSolver := {
  BandMatrix : Type;
  Matrix : Type;
  gbtrf : BandMatrix -> Pivots -> Options -> BandMatrix * Pivots;
  gbtrs : BandMatrix -> Pivots -> Matrix -> Options
          -> BandMatrix * Pivots * Matrix
}.

Section gbsv.
Context `{Env} `{BandSolver}.

(** Lines 59-76: internal::specialization::gbsv. *)
Definition specialization_gbsv (target : Target.t)
    (A : BandMatrix) (pv : Pivots) (B : Matrix)
    (ib max_panel_threads lookahead : Z) : BandMatrix * Pivots * Matrix :=
  (* factorization *)
  let '(A, pv) :=
    gbtrf A pv
      (list_to_map
         [ (Option.InnerBlocking, mkValue ib);
           (Option.Lookahead, mkValue lookahead);
           (Option.MaxPanelThreads, mkValue max_panel_threads);
           (Option.Target, mkValue (Target_code target)) ]) in
  (* solve *)
  gbtrs A pv B
    (list_to_map
       [ (Option.Lookahead, mkValue lookahead);
         (Option.Target, mkValue (Target_code target)) ]).

(** Lines 85-120: version with the target as template parameter. *)
Definition gbsv_target (target : Target.t)
    (A : BandMatrix) (pv : Pivots) (B : Matrix) (opts : Options)
    : result (BandMatrix * Pivots * Matrix) :=
  lookahead ← opt_lookahead opts;
  ib ← opt_ib opts;
  max_panel_threads ← opt_max_panel_threads_gbsv opts;
  Ok (specialization_gbsv target A pv B ib (to_int max_panel_threads)
        lookahead).

(** Lines 184-213: the entry point, declared [void]. *)
Definition gbsv (A : BandMatrix) (pv : Pivots) (B : Matrix) (opts : Options)
    : result (unit * (BandMatrix * Pivots * Matrix)) :=
  match opt_target opts with
  | Some target => r ← gbsv_target target A pv B opts; Ok (tt, r)
  | None => Ok (tt, (A, pv, B))
  end.
End gbsv.

(** ** Kernels on tiles of block size 1 *)

(** With block size 1 a tile is one scalar; the scalars are rationals, kept
    in lowest terms. *)
Module Scalar.

#[global] Instance Q_inhabited : Inhabited Q := populate 0%Q.

(** Index of the first entry of largest magnitude, the lowest index on
    ties; [bi] and [b] are the best index and entry so far. *)
Fixpoint argmax_abs (bi : nat) (b : Q) (i : nat) (l : list Q) : nat :=
  match l with
  | [] => bi
  | x :: l' =>
      if Qlt_le_dec (Qabs b) (Qabs x)
      then argmax_abs i x (S i) l'
      else argmax_abs bi b (S i) l'
  end.

(** Exchange the tiles at positions [a] and [b] of a block column. *)
Definition swap_tiles (a b : nat) (l : list Q) : list Q :=
  match l !! a, l !! b with
  | Some x, Some y => <[a := y]> (<[b := x]> l)
  | _, _ => l
  end.

(** Modelled from the spec: [internal::permuteRows] on one block column of
    tiles of block size 1.  The swaps are applied in sequence order; every
    tile has the single row 0, so the record at position 0 exchanges tile
    0 with tile [tileIndex], and a record naming another row names no row
    of the panel. *)
Definition permute (pivot : list Pivot) (col : list Q) : list Q :=
  foldl (fun c rp =>
           if (rp.1 =? 0)%nat && (elementOffset rp.2 =? 0)
              && (0 <=? tileIndex rp.2)
           then swap_tiles 0 (Z.to_nat (tileIndex rp.2)) c else c)
        col (imap pair pivot).

(** Modelled from the spec: the panel kernel [internal::getrf_ca] on a
    panel of tiles of block size 1, by partial pivoting: the pivot is the
    first entry of largest magnitude.  The kernel leaves the panel of [A]
    to the driver, which applies the interchange and copies the factored
    diagonal tile back; the workspace holds the panel with the pivot row
    on top, its top tile being the 1-by-1 factor. *)
Definition panel (col : list Q) (diag_len ib max_panel_threads : Z)
    : list Q * list Q * list Pivot :=
  match col with
  | [] => ([], [], [])
  | a :: _ =>
      let p := argmax_abs 0 a 0 col in
      let pv := if 0 <? diag_len then [mkPivot (Z.of_nat p) 0] else [] in
      (col, swap_tiles 0 p col, pv)
  end.

(** Modelled from the spec: one tile of the triangular solve with
    alpha = 1.  A unit triangle of order 1 is the identity; otherwise the
    tile is divided by the diagonal entry. *)
Definition trsm (side : Side) (uplo : Uplo) (diag : Diag) (a b : Q) : Q :=
  match diag with
  | Unit => b
  | NonUnit => Qred (b / a)
  end.

(** Modelled from the spec: one tile of the update [C - A * B]. *)
Definition gemm (a b c : Q) : Q := Qred (c - a * b).

#[global] Instance kernels : Kernels := {|
  tile := Q;
  panel_getrf_ca := panel;
  permuteRows_col := fun _ _ => permute;
  tile_trsm := fun _ => trsm;
  tile_gemm := fun _ => gemm
|}.

(** A build with assertions, four host threads, the enumerators coded by
    their position, and a pivot record of two 64-bit integers. *)
#[global] Instance env : Env := {|
  NDEBUG := false;
  omp_get_max_threads := 4;
  Target_code := fun t =>
    match t with
    | Target.Host => 0 | Target.HostTask => 1 | Target.HostNest => 2
    | Target.HostBatch => 3 | Target.Devices => 4
    end;
  sizeof_Pivot := 16
|}.

(** The same host with a library built with [NDEBUG]. *)
Definition env_ndebug : Env := {|
  NDEBUG := true;
  omp_get_max_threads := 4;
  Target_code := @Target_code env;
  sizeof_Pivot := 16
|}.

(** An [n]-by-[n] grid of tiles of block size 1, distributed over a
    2-by-2 process grid. *)
Definition grid (n : Z) : MatrixDesc := {|
  mt := n; nt := n;
  tileMb := fun _ => 1; tileNb := fun _ => 1;
  tileRank := fun i j => i mod 2 + 2 * (j mod 2)
|}.

(** The matrix with entries [f i j] on the [n]-by-[n] grid. *)
Definition matrix (n : Z) (f : Z -> Z -> Q) : gmap (Z * Z) Q :=
  list_to_map
    ((fun ij => (ij, f ij.1 ij.2)) <$> sub_coords (sub 0 (n-1) 0 (n-1))).

Definition identity (n : Z) : gmap (Z * Z) Q :=
  matrix n (fun i j => if i =? j then 1%Q else 0%Q).

(** The options that select a target and a lookahead. *)
Definition with_options (t : Target.t) (lookahead : Z) : Options :=
  <[Option.Target := mkValue (Target_code t)]>
    (<[Option.Lookahead := mkValue lookahead]> ∅).

(** The matrix of ones: its second pivot is exactly zero. *)
Definition ones (n : Z) : gmap (Z * Z) Q :=
  matrix n (fun _ _ => 1%Q).

(** A general 3-by-3 matrix, rows (1 3 5), (2 3 4), (5 5 5). *)
Definition sample : gmap (Z * Z) Q :=
  matrix 3 (fun i j => inject_Z (i * i + 2 * j + 1 - i * j)).

(** The band solver on a system of order 1: the factor of the scalar [a]
    is [a] itself, with the pivot record that swaps nothing; the solve
    divides the right-hand side by it. *)
Definition band_solver_1 : BandSolver := {|
  BandMatrix := Q;
  Matrix := Q;
  gbtrf := fun a _ _ => (a, [[mkPivot 0 0]]);
  gbtrs := fun a pv b _ => (a, pv, Qred (b / a))
|}.
End Scalar.

(** ** The update of the columns right of a panel, in closed form *)

Section columns_def.
Context `{Kernels}.
Context (target : Target.t).

(** The tile that the update for panel [k] leaves at [(i, j)], [j] a
    column right of the panel: the pivots of the panel are applied to the
    block column, the tile of row [k] is solved against the diagonal tile,
    the tiles below receive the update.  [t0] is the tile before. *)
Definition col_value (s : state) (k i2 j i : Z) (t0 : tile) : tile :=
  let A := mat_A s in
  let c := permuteRows_col Target.HostTask host_layout
             (pivots s !!! Z.to_nat k) (col_tiles A (sub k i2 j j) j) in
  let p i t := if (k <=? i) && (i <=? i2)
               then nth (Z.to_nat (i - k)) c t else t in
  let Akk := A !!! (k, k) in
  let Akj := match A !! (k, j) with
             | Some t => tile_trsm target Left Lower Unit Akk (p k t)
             | None => inhabitant
             end in
  if i =? k then tile_trsm target Left Lower Unit Akk (p i t0)
  else if (k + 1 <=? i) && (i <=? i2)
       then tile_gemm target (A !!! (i, k)) Akj (p i t0)
       else t0.

(** The three kernels on the columns [J1..J2], whichever the scheduling
    arguments. *)
Definition update_cols (t : Target.t) (lay : Layout) (k i2 J1 J2 : Z)
    (a1 : option (Z * Z * Z)) (p1 q1 p2 q2 : Z) (l1 l2 : Layout)
    : list call :=
  [ PermuteRows t (sub k i2 J1 J2) k lay a1;
    Trsm target Left Lower Unit k (sub k k J1 J2) p1 l1 q1;
    Gemm target (sub (k+1) i2 k k) (sub k k J1 J2) (sub (k+1) i2 J1 J2)
      l2 p2 q2 ].

(** The state after the update of the columns [J1..J2]. *)
Definition update_state (s : state) (k i2 J1 J2 : Z) : state :=
  mkState
    (region_update (fun ij => (J1 <=? ij.2) && (ij.2 <=? J2))
       (fun ij => col_value s k i2 ij.2 ij.1) (mat_A s))
    (pivots s) (Awork s).

(** The interchanges on the selected target and its layout are those of
    the host: the assumption under which columns may move between the
    lookahead tasks and the trailing task. *)
Definition permuteRows_agrees : Prop :=
  forall pv col,
    permuteRows_col target (target_layout target) pv col
    = permuteRows_col Target.HostTask host_layout pv col.

End columns_def.

(** ** Vocabulary for the statements *)

Section schedule_def.
Context (target : Target.t) (D : MatrixDesc).
Context (ib max_panel_threads lookahead : Z).

(** The calls issued before step [k] of the loop over the panels. *)
Definition calls_before (k : Z) : list call :=
  (if decide (target = Target.Devices)
   then [AllocateBatchArrays; ReserveDeviceWorkspace] else [])
  ++ [ PivotsResize (min_mt_nt D); EmptyLike ]
  ++ (k' ← seqZ 0 k;
      getrf_ca_step target D ib max_panel_threads lookahead k').

(** The calls issued after step [k] of the loop over the panels. *)
Definition calls_after (k : Z) : list call :=
  (k' ← seqZ (k + 1) (min_mt_nt D - (k + 1));
   getrf_ca_step target D ib max_panel_threads lookahead k')
  ++ [ TileUpdateAllOrigin ]
  ++ (k' ← seqZ 0 (min_mt_nt D); pivot_left D k')
  ++ [ ClearWorkspace ].

(** The calls of step [k] from the panel kernel on. *)
Definition step_tail (k : Z) : list call :=
  drop 2 (getrf_ca_step target D ib max_panel_threads lookahead k).
End schedule_def.

(** The message tag a call passes, if it passes one.  [MPI_Bcast] is a
    collective and takes no tag; a [ListBcastMT] tags each entry of its
    list. *)
Definition call_tag (c : call) : option Z :=
  match c with
  | PermuteRows _ _ _ _ (Some (_, tag, _)) => Some tag
  | ListBcast _ _ _ _ _ tag _ _ => Some tag
  | TileBcast _ _ _ _ tag => Some tag
  | _ => None
  end.

(** [c] broadcasts the pivots of panel [k]. *)
Definition bcasts_pivots (k : Z) (c : call) : bool :=
  match c with
  | MPI_Bcast k' _ => bool_decide (k' = k)
  | _ => false
  end.

(** The specification's wording: among the calls [cs], the broadcast of
    the pivots of panel [k] carries the tag [k]. *)
Definition pivot_bcast_tagged (cs : list call) (k : Z) : Prop :=
  exists c, c ∈ cs /\ bcasts_pivots k c = true /\ call_tag c = Some k.

(** [c] applies the row interchanges of panel [k]. *)
Definition applies_pivots (k : Z) (c : call) : bool :=
  match c with
  | PermuteRows _ _ k' _ _ => bool_decide (k' = k)
  | _ => false
  end.

(** [c] may change the length of entry [n] of the pivot table. *)
Definition resizes_pivot (n : nat) (c : call) : bool :=
  match c with
  | PivotsResize _ => true
  | PivotResize k _ => bool_decide (Z.to_nat k = n)
  | _ => false
  end.

(** [c] may write entry [n] of the pivot table. *)
Definition writes_pivot (n : nat) (c : call) : bool :=
  match c with
  | PanelGetrf _ _ k _ _ _ _ => bool_decide (Z.to_nat k = n)
  | _ => resizes_pivot n c
  end.

(** [c] allocates workspace tiles in block column [k]. *)
Definition allocates_col (k : Z) (c : call) : bool :=
  match c with
  | InsertLocalTiles V => (j1 V <=? k) && (k <=? j2 V)
  | _ => false
  end.

(** The byte count that [MPI_Bcast] is called with for the pivots of panel
    [k] in state [s]: [sizeof(Pivot) * pivots.at(k).size()]. *)
Definition MPI_Bcast_count `{Env} `{Kernels} (s : state) (k : Z) : Z :=
  sizeof_Pivot * Z.of_nat (length (pivots s !!! Z.to_nat k)).

(** The record at position [r] of a sequence exchanges row [r] of the top
    tile with itself. *)
Definition self_swap (r : nat) (p : Pivot) : bool :=
  (tileIndex p =? 0) && (elementOffset p =? Z.of_nat r).

Definition no_row_swaps (pv : Pivots) : bool :=
  forallb (fun l => forallb (fun rp => self_swap rp.1 rp.2) (imap pair l)) pv.

(** ** The options as the specification words them *)

Section claimed_options.
Context `{Env} `{Kernels}.

(** The specification's wording: an option that is missing or out of
    range takes the documented default. *)
Definition claimed_option (in_range : Z -> bool) (default : Z)
    (o : option Value) : Z :=
  match o with
  | Some v => if in_range (i_ v) then i_ v else default
  | None => default
  end.

(** The specification's wording: lookahead is a non-negative integer
    with default 1, inner blocking a positive integer with default 16,
    the number of panel threads a positive integer with default half the
    host threads; the call does not fail. *)
Definition claimed_getrf_ca_target (target : Target.t) (D : MatrixDesc)
    (A : gmap (Z * Z) tile) (pv : Pivots) (opts : Options)
    : result (gmap (Z * Z) tile * Pivots) :=
  let lookahead :=
    claimed_option (fun v => 0 <=? v) 1 (opts !! Option.Lookahead) in
  let ib :=
    claimed_option (fun v => 1 <=? v) 16 (opts !! Option.InnerBlocking) in
  let max_panel_threads :=
    claimed_option (fun v => 1 <=? v) (omp_get_max_threads ÷ 2)
      (opts !! Option.MaxPanelThreads) in
  Ok (specialization_getrf_ca target D ib (to_int max_panel_threads)
        lookahead A pv).

(** What the code does with an option: the value given, or the default
    when the option is missing. *)
Definition option_value (default : Z) (o : option Value) : Z :=
  from_option i_ default o.

(** An option passes when it is missing, when its value satisfies the
    assertion, or when assertions are compiled out. *)
Definition option_passes (asserted : Z -> bool) (o : option Value) : bool :=
  match o with
  | Some v => NDEBUG || asserted (i_ v)
  | None => true
  end.
End claimed_options.

(** ** Vocabulary for further properties of getrf_ca *)

(** The options with every documented default written out. *)
Definition default_options `{Env} : Options :=
  list_to_map
    [ (Option.Lookahead, mkValue 1);
      (Option.InnerBlocking, mkValue 16);
      (Option.MaxPanelThreads, mkValue (Z.max (omp_get_max_threads ÷ 2) 1));
      (Option.Target, mkValue (Target_code Target.HostTask)) ].

(** The tile regions a call names: its views, the destinations of its
    broadcasts, and the single tiles it sends. *)
Definition call_views (c : call) : list Sub :=
  match c with
  | InsertLocalTiles V | Clear V => [V]
  | PanelGetrf V W _ _ _ _ _ => [V; W]
  | PermuteRows _ V _ _ _ => [V]
  | Copy src dst => [src; dst]
  | ListBcast _ i j dest _ _ _ _ => sub i i j j :: dest
  | Trsm _ _ _ _ k V _ _ _ => [sub k k k k; V]
  | ListBcastMT _ l _ _ =>
      e ← l; sub (bc_i e) (bc_i e) (bc_j e) (bc_j e) :: bc_dest e
  | TileBcast i j dest _ _ => [sub i i j j; dest]
  | Gemm _ VA VB VC _ _ _ => [VA; VB; VC]
  | _ => []
  end.

(** [c] writes the tile [ij] of [A]. *)
Definition writes (c : call) (ij : Z * Z) : bool :=
  match c with
  | PanelGetrf V _ _ _ _ _ _ => in_sub V ij
  | PermuteRows _ V _ _ _ => in_sub V ij
  | Copy _ dst => in_sub dst ij
  | Trsm _ _ _ _ _ V _ _ _ => in_sub V ij
  | Gemm _ _ _ VC _ _ _ => in_sub VC ij
  | _ => false
  end.

(** [c] applies the row interchanges of panel [k] to block column [j]. *)
Definition permutes (k j : Z) (c : call) : bool :=
  match c with
  | PermuteRows _ V k' _ _ =>
      bool_decide (k' = k) && (j1 V <=? j) && (j <=? j2 V)
  | _ => false
  end.

(** [c] is a call of the device path. *)
Definition device_call (c : call) : bool :=
  match c with
  | AllocateBatchArrays | ReserveDeviceWorkspace
  | ReleaseDiag _ | ReleasePanel _ => true
  | _ => false
  end.

(** The number of calls among [cs] that satisfy [P]. *)
Definition count_calls (P : call -> bool) (cs : list call) : nat :=
  length (List.filter P cs).

(** [c] is a block update [internal::gemm]. *)
Definition is_gemm (c : call) : bool :=
  match c with
  | Gemm _ _ _ _ _ _ _ => true
  | _ => false
  end.

(** ** trsm (src/test/matrix_generator.hh, lines 134-334) *)

Inductive Op := NoTrans | Trans | ConjTrans.

(** What the triangular solve is handed and does not define: the scalars,
    the matrix handles with their accessors and transpositions, and the
    tile kernels.  [tri_tile A (i, j)] is the tile [A(i, j)], and
    [gen_tiles B] are the tiles of [B], both as seen through the handle. *)
Class TrsmKernels `{Kernels} := {
  scalar_t : Type;
  scalar_one : scalar_t;                              (* scalar_t(1.0) *)
  scalar_minus_one : scalar_t;                        (* scalar_t(-1.0) *)
  scalar_conj : scalar_t -> scalar_t;                 (* conj(alpha) *)
  TriangularMatrix : Type;
  GeneralMatrix : Type;
  tri_op : TriangularMatrix -> Op;
  tri_mt : TriangularMatrix -> Z;
  tri_nt : TriangularMatrix -> Z;
  tri_uplo_logical : TriangularMatrix -> Uplo;
  tri_tile : TriangularMatrix -> Z * Z -> tile;
  tri_transpose : TriangularMatrix -> TriangularMatrix;
  tri_conj_transpose : TriangularMatrix -> TriangularMatrix;
  gen_op : GeneralMatrix -> Op;
  gen_mt : GeneralMatrix -> Z;
  gen_nt : GeneralMatrix -> Z;
  gen_tiles : GeneralMatrix -> gmap (Z * Z) tile;
  gen_transpose : GeneralMatrix -> GeneralMatrix;
  gen_conj_transpose : GeneralMatrix -> GeneralMatrix;
  trsm_tile : Side -> Diag -> scalar_t -> tile -> tile -> tile;
  gemm_tile : Target.t -> scalar_t -> tile -> tile -> scalar_t -> tile -> tile
}.

Section trsm_calls.
Context `{TrsmKernels}.

(** The calls that [internal::specialization::trsm] issues.  [None]
    stands for a template or priority argument left to its default. *)
Inductive trsm_call :=
| B_allocateBatchArrays
| B_reserveDeviceWorkspace
| A_tileBcast (t : option Target.t) (i j : Z) (dest : Sub)
| B_tileBcast (i j : Z) (dest : Sub)
| internal_trsm (side : Side) (diag : Diag) (alph : scalar_t)
    (k : Z) (VB : Sub) (priority : Z)            (* A.sub(k, k), VB of B *)
| internal_gemm (t : Target.t) (alpha : scalar_t) (VA VB : Sub)
    (beta : scalar_t) (VC : Sub) (priority : option Z)
                                                 (* VA of A; VB, VC of B *)
| B_tileMoveToHost (i j : Z)
| B_clearWorkspace.

(** Modelled from the spec: the internal routines [internal::trsm] and
    [internal::gemm], which the driver calls and does not define.  As
    the spec has it, they are the "compute kernels (matrix multiply,
    triangular solve)" applied to a view tile by tile: the solve takes
    every tile of the block row against the diagonal tile, the update
    takes tile [(i, j)] of [VC] against the tile of the block column
    [VA] in its row and the tile of the block row [VB] in its column.
    Broadcasts and moves replicate tiles and leave the logical matrix
    as it is; so do the device calls. *)
Definition trsm_exec (A : TriangularMatrix) (c : trsm_call)
    (B : gmap (Z * Z) tile) : gmap (Z * Z) tile :=
  match c with
  | internal_trsm side diag alph k VB _ =>
      region_update (in_sub VB)
        (fun _ b => trsm_tile side diag alph (tri_tile A (k, k)) b) B
  | internal_gemm t alpha VA VB beta VC _ =>
      region_update (in_sub VC)
        (fun ij c =>
           gemm_tile t alpha
             (tri_tile A (i1 VA + (ij.1 - i1 VC), j1 VA))
             (B !!! (i1 VB, j1 VB + (ij.2 - j1 VC))) beta c) B
  | _ => B
  end.

(** The calls run in program order; the [depend] clauses of the tasks
    order every two tasks that touch the same block row that way. *)
Definition trsm_run (A : TriangularMatrix) (cs : list trsm_call)
    (B : gmap (Z * Z) tile) : gmap (Z * Z) tile :=
  foldl (fun B c => trsm_exec A c B) B cs.

(** Lines 145-155: a solve on the right becomes one on the left. *)
Definition trsm_operands (side : Side) (alpha : scalar_t)
    (A : TriangularMatrix) (B : GeneralMatrix)
    : scalar_t * TriangularMatrix * GeneralMatrix :=
  match side with
  | Right =>
      match tri_op A, gen_op B with
      | ConjTrans, _ | _, ConjTrans =>
          (scalar_conj alpha, tri_conj_transpose A, gen_conj_transpose B)
      | _, _ => (alpha, tri_transpose A, gen_transpose B)
      end
  | Left => (alpha, A, B)
  end.
End trsm_calls.

Section trsm.
Context `{Env} `{TrsmKernels}.
Context (target : Target.t) (diag : Diag) (alpha : scalar_t).
Context (mt nt lookahead : Z).

(** Lines 181 and 241: [alpha] goes into the first step of a sweep. *)
Definition forward_alph (k : Z) : scalar_t :=
  if k =? 0 then alpha else scalar_one.
Definition backward_alph (k : Z) : scalar_t :=
  if k =? mt - 1 then alpha else scalar_one.

(** Lines 184-205 and 244-265: the panel task; [rows] are the block rows
    still to be updated, [i1'] and [i2'] the first and last of them. *)
Definition trsm_panel_task (k : Z) (alph : scalar_t) (rows : list Z)
    (i1' i2' : Z) : list trsm_call :=
  [ A_tileBcast (Some target) k k (sub k k 0 (nt-1));
    internal_trsm Left diag alph k (sub k k 0 (nt-1)) 1 ]
  ++ (i ← rows; [A_tileBcast None i k (sub i i 0 (nt-1))])
  ++ (j ← seqZ 0 nt; [B_tileBcast k j (sub i1' i2' j j)]).

(** Lines 212-215 and 272-275: the update of one block row. *)
Definition trsm_lookahead_task (k : Z) (alph : scalar_t) (i : Z)
    : list trsm_call :=
  [ internal_gemm Target.HostTask scalar_minus_one
      (sub i i k k) (sub k k 0 (nt-1)) alph (sub i i 0 (nt-1)) (Some 1) ].

(** Lines 228-231 and 288-291: the update of the block rows [a..b]. *)
Definition trsm_trailing_task (k : Z) (alph : scalar_t) (a b : Z)
    : list trsm_call :=
  [ internal_gemm target scalar_minus_one
      (sub a b k k) (sub k k 0 (nt-1)) alph (sub a b 0 (nt-1)) None ].

(** Lines 180-234: one step of the forward sweep. *)
Definition forward_step (k : Z) : list trsm_call :=
  let alph := forward_alph k in
  trsm_panel_task k alph (seqZ (k+1) (mt - (k+1))) (k+1) (mt-1)
  ++ (i ← seqZ (k+1) (Z.min (k+1+lookahead) mt - (k+1));
      trsm_lookahead_task k alph i)
  ++ (if k+1+lookahead <? mt
      then trsm_trailing_task k alph (k+1+lookahead) (mt-1) else []).

(** Lines 240-294: one step of the backward sweep. *)
Definition backward_step (k : Z) : list trsm_call :=
  let alph := backward_alph k in
  let lo := Z.max (k - lookahead) 0 in
  trsm_panel_task k alph (seqZ 0 k) 0 (k-1)
  ++ (i ← reverse (seqZ lo (k - lo)); trsm_lookahead_task k alph i)
  ++ (if 0 <=? k-1-lookahead
      then trsm_trailing_task k alph 0 (k-1-lookahead) else []).

Definition forward_sweep : list trsm_call :=
  k ← seqZ 0 mt; forward_step k.
Definition backward_sweep : list trsm_call :=
  k ← reverse (seqZ 0 mt); backward_step k.

(** Lines 161-304, in program order. *)
Definition trsm_calls (uplo_logical : Uplo) : list trsm_call :=
  (if decide (target = Target.Devices)
   then [B_allocateBatchArrays; B_reserveDeviceWorkspace] else [])
  ++ match uplo_logical with
     | Lower => forward_sweep
     | Upper => backward_sweep
     end
  ++ (i ← seqZ 0 mt; j ← seqZ 0 nt; [B_tileMoveToHost i j])
  ++ [B_clearWorkspace].
End trsm.

Section trsm_drivers.
Context `{Env} `{TrsmKernels}.

(** [internal::specialization::trsm] (lines 134-305).  [A] and [B] are
    passed by value: the result is the tiles of [B] as the routine sees
    them, that is, after the transposition of a solve on the right. *)
Definition specialization_trsm (target : Target.t) (side : Side)
    (diag : Diag) (alpha : scalar_t) (A : TriangularMatrix)
    (B : GeneralMatrix) (lookahead : Z) : result (gmap (Z * Z) tile) :=
  let '(alpha, A, B) := trsm_operands side alpha A B in
  _ ← assert (tri_mt A =? gen_mt B);
  _ ← assert (tri_nt A =? gen_mt B);
  let mt := gen_mt B in
  let nt := gen_nt B in
  Ok (trsm_run A
        (trsm_calls target diag alpha mt nt lookahead (tri_uplo_logical A))
        (gen_tiles B)).

(** [trsm<target>] (lines 314-334). *)
Definition trsm_target (target : Target.t) (side : Side) (diag : Diag)
    (alpha : scalar_t) (A : TriangularMatrix) (B : GeneralMatrix)
    (opts : Options) : result (gmap (Z * Z) tile) :=
  lookahead ← opt_lookahead opts;
  specialization_trsm target side diag alpha A B lookahead.
End trsm_drivers.

(** The block rows and columns of [B] a call names, and the tiles of [A]
    it names. *)
Definition trsm_call_views `{TrsmKernels} (c : trsm_call) : list Sub :=
  match c with
  | A_tileBcast _ _ _ dest => [dest]
  | B_tileBcast i j dest => [sub i i j j; dest]
  | internal_trsm _ _ _ _ VB _ => [VB]
  | internal_gemm _ _ _ VB _ VC _ => [VB; VC]
  | B_tileMoveToHost i j => [sub i i j j]
  | _ => []
  end.
Definition trsm_call_views_A `{TrsmKernels} (c : trsm_call) : list Sub :=
  match c with
  | A_tileBcast _ i j _ => [sub i i j j]
  | internal_trsm _ _ _ k _ _ => [sub k k k k]
  | internal_gemm _ _ VA _ _ _ _ => [VA]
  | _ => []
  end.

(** What a call does to block row [i] of [B]: it solves it, or it updates
    it with the panel of block column [k] of [A]. *)
Inductive row_op := Solve | Update (k : Z).

(** The operation of [c] on block row [i] and the scalar it multiplies the
    row by, if [c] writes that row. *)
Definition row_write `{TrsmKernels} (i : Z) (c : trsm_call)
    : option (row_op * scalar_t) :=
  match c with
  | internal_trsm _ _ alph _ VB _ =>
      if (i1 VB <=? i) && (i <=? i2 VB) then Some (Solve, alph) else None
  | internal_gemm _ _ VA _ beta VC _ =>
      if (i1 VC <=? i) && (i <=? i2 VC)
      then Some (Update (j1 VA), beta) else None
  | _ => None
  end.

(** Kernels and handles on tiles of block size 1 over the rationals. *)
Module ScalarTrsm.

(** A triangular matrix of order [tn]: its stored entries, whether the
    handle is transposed, and the triangle it stores. *)
Record Tri := mkTri {
  t_op : Op; t_uplo : Uplo; tn : Z; t_entry : Z * Z -> Q
}.

(** An [gm]-by-[gn] matrix handle over its stored tiles. *)
Record Gen := mkGen {
  g_op : Op; gm : Z; gn : Z; g_tiles : gmap (Z * Z) Q
}.

Definition flip_op (o : Op) : Op :=
  match o with NoTrans => Trans | _ => NoTrans end.
Definition flip_uplo (u : Uplo) : Uplo :=
  match u with Lower => Upper | Upper => Lower end.
Definition swap_keys (m : gmap (Z * Z) Q) : gmap (Z * Z) Q :=
  list_to_map ((fun kv => ((kv.1.2, kv.1.1), kv.2)) <$> map_to_list m).

(** Modelled from the spec: [transpose] of a handle exchanges the roles
    of rows and columns; over the rationals [conj_transpose] is the
    same. *)
Definition transpose_tri (A : Tri) : Tri :=
  mkTri (flip_op (t_op A)) (flip_uplo (t_uplo A)) (tn A)
    (fun ij => t_entry A (ij.2, ij.1)).
Definition transpose_gen (B : Gen) : Gen :=
  mkGen (flip_op (g_op B)) (gn B) (gm B) (swap_keys (g_tiles B)).

(** Modelled from the spec: one tile of the triangular solve,
    [alpha * b / a], and one tile of the update,
    [alpha * a * b + beta * c]. *)
Definition trsm1 (side : Side) (diag : Diag) (alph a b : Q) : Q :=
  match diag with
  | Unit => Qred (alph * b)
  | NonUnit => Qred (alph * b / a)
  end.
Definition gemm1 (alpha a b beta c : Q) : Q :=
  Qred (alpha * a * b + beta * c).

#[global] Instance trsm_kernels : @TrsmKernels Scalar.kernels := {|
  scalar_t := Q;
  scalar_one := 1%Q;
  scalar_minus_one := (-1)%Q;
  scalar_conj := fun a => a;
  TriangularMatrix := Tri;
  GeneralMatrix := Gen;
  tri_op := t_op;
  tri_mt := tn;
  tri_nt := tn;
  tri_uplo_logical := t_uplo;
  tri_tile := t_entry;
  tri_transpose := transpose_tri;
  tri_conj_transpose := transpose_tri;
  gen_op := g_op;
  gen_mt := gm;
  gen_nt := gn;
  gen_tiles := g_tiles;
  gen_transpose := transpose_gen;
  gen_conj_transpose := transpose_gen;
  trsm_tile := trsm1;
  gemm_tile := fun _ => gemm1
|}.

(** The lower triangular matrix with rows (2), (1 4), (3 5 8). *)
Definition L3 : Tri :=
  mkTri NoTrans Lower 3
    (fun ij => inject_Z (nth (Z.to_nat (3 * ij.1 + ij.2))
                           [2; 0; 0; 1; 4; 0; 3; 5; 8] 0)).

(** The same entries read as an upper triangular matrix. *)
Definition U3 : Tri := transpose_tri L3.

(** A 3-by-2 right-hand side, rows (2 4), (9 6), (29 11). *)
Definition B32 : Gen :=
  mkGen NoTrans 3 2
    (list_to_map
       ((fun ij => (ij, inject_Z (nth (Z.to_nat (2 * ij.1 + ij.2))
                                    [2; 4; 9; 6; 29; 11] 0)))
          <$> sub_coords (sub 0 2 0 1))).
End ScalarTrsm.

(** The update [B(i, :) -= A(i, k) B(k, :)] of the block rows [i] selected
    by [P], with [B(i, :)] scaled by [alph], and the solve of block row
    [k]: what one step of a sweep does, whatever the lookahead. *)
Definition trsm_row_update `{TrsmKernels} (A : TriangularMatrix)
    (nt k : Z) (alph : scalar_t) (P : Z -> bool) (B : gmap (Z * Z) tile)
    : gmap (Z * Z) tile :=
  region_update (fun ij => P ij.1 && (0 <=? ij.2) && (ij.2 <=? nt-1))
    (fun ij c =>
       gemm_tile Target.HostTask scalar_minus_one
         (tri_tile A (ij.1, k)) (B !!! (k, ij.2)) alph c) B.
Definition trsm_row_solve `{TrsmKernels} (A : TriangularMatrix)
    (diag : Diag) (nt k : Z) (alph : scalar_t) (B : gmap (Z * Z) tile)
    : gmap (Z * Z) tile :=
  region_update (in_sub (sub k k 0 (nt-1)))
    (fun _ b => trsm_tile Left diag alph (tri_tile A (k, k)) b) B.

(** * Properties *)

(** ** Running calls *)

Section run_facts.
Context `{Kernels}.

Lemma run_nil s : run [] s = s.
Proof. reflexivity. Qed.

Lemma run_cons c cs s : run (c :: cs) s = run cs (exec c s).
Proof. reflexivity. Qed.

Lemma run_app cs1 cs2 s : run (cs1 ++ cs2) s = run cs2 (run cs1 s).
Proof. apply foldl_app. Qed.

Lemma run_bind_cons {X} (f : X -> list call) x l s :
  run (y ← x :: l; f y) s = run (y ← l; f y) (run (f x) s).
Proof. simpl. apply run_app. Qed.

(** Two loops whose bodies act alike act alike. *)
Lemma run_bind_ext {X} (f g : X -> list call) (l : list X) :
  (forall x s, x ∈ l -> run (f x) s = run (g x) s) ->
  forall s, run (x ← l; f x) s = run (x ← l; g x) s.
Proof.
  induction l as [|x l IH]; intros Hfg s; [reflexivity|].
  rewrite !run_bind_cons, Hfg by left.
  apply IH. intros y s' Hy. apply Hfg. by right.
Qed.

Lemma region_update_lookup (P : Z * Z -> bool) (f : Z * Z -> tile -> tile)
    (m : gmap (Z * Z) tile) (ij : Z * Z) :
  region_update P f m !! ij
  = (fun t => if P ij then f ij t else t) <$> m !! ij.
Proof.
  unfold region_update. rewrite map_lookup_imap.
  by destruct (m !! ij).
Qed.

Lemma region_update_lookup_total (P : Z * Z -> bool) (f : Z * Z -> tile -> tile)
    (m : gmap (Z * Z) tile) (ij : Z * Z) :
  region_update P f m !!! ij
  = match m !! ij with
    | Some t => if P ij then f ij t else t
    | None => inhabitant
    end.
Proof.
  rewrite lookup_total_alt, region_update_lookup.
  by destruct (m !! ij).
Qed.

Lemma region_update_lookup_total_out (P : Z * Z -> bool)
    (f : Z * Z -> tile -> tile) (m : gmap (Z * Z) tile) (ij : Z * Z) :
  P ij = false -> region_update P f m !!! ij = m !!! ij.
Proof.
  intros HP. rewrite region_update_lookup_total, lookup_total_alt, HP.
  by destruct (m !! ij).
Qed.

Lemma region_update_none (P : Z * Z -> bool) (f : Z * Z -> tile -> tile)
    (m : gmap (Z * Z) tile) :
  (forall ij, P ij = false) -> region_update P f m = m.
Proof.
  intros HP. apply map_eq. intros ij.
  rewrite region_update_lookup, HP. by destruct (m !! ij).
Qed.

(** A block column that a region leaves alone reads the same. *)
Lemma col_tiles_region_out (P : Z * Z -> bool) (f : Z * Z -> tile -> tile)
    (m : gmap (Z * Z) tile) (V : Sub) (j : Z) :
  (forall i, P (i, j) = false) ->
  col_tiles (region_update P f m) V j = col_tiles m V j.
Proof.
  intros HP. unfold col_tiles. apply list_fmap_ext. intros _ i _.
  by apply region_update_lookup_total_out.
Qed.

Lemma col_tiles_ext (m1 m2 : gmap (Z * Z) tile) (V : Sub) (j : Z) :
  (forall i, m1 !! (i, j) = m2 !! (i, j)) ->
  col_tiles m1 V j = col_tiles m2 V j.
Proof.
  intros Hm. unfold col_tiles. apply list_fmap_ext. intros _ i _.
  by rewrite !lookup_total_alt, Hm.
Qed.
End run_facts.

(** ** The update of the columns right of a panel *)

Section columns.
Context `{Kernels}.
Context (target : Target.t).

Ltac zbool :=
  repeat match goal with
  | |- context [(?a <=? ?b)] => destruct (Z.leb_spec a b)
  | |- context [(?a =? ?b)] => destruct (Z.eqb_spec a b)
  | |- context [(?a <? ?b)] => destruct (Z.ltb_spec a b)
  end; simpl in *; try lia; try done.

Lemma update_cols_lookup t lay k i2 J1 J2 a1 p1 q1 p2 q2 l1 l2 s i j :
  k < J1 ->
  (forall pv col, permuteRows_col t lay pv col
                  = permuteRows_col Target.HostTask host_layout pv col) ->
  mat_A (run (update_cols target t lay k i2 J1 J2 a1 p1 q1 p2 q2 l1 l2) s)
    !! (i, j)
  = (fun t0 => if (J1 <=? j) && (j <=? J2) then col_value target s k i2 j i t0
               else t0) <$> mat_A s !! (i, j).
Proof.
  intros Hk Hperm. unfold update_cols, run. simpl.
  rewrite !region_update_lookup.
  destruct (mat_A s !! (i, j)) as [t0|] eqn:E; simpl; [|done].
  f_equal. unfold in_sub, col_value, col_entry, col_tiles. simpl.
  rewrite Hperm.
  destruct ((J1 <=? j) && (j <=? J2)) eqn:EJ.
  2:{ zbool. }
  assert (J1 <= j <= J2) as HJ by (zbool).
  rewrite !(region_update_lookup_total_out _ _ _ (k, k)) by (simpl; zbool).
  rewrite !(region_update_lookup_total_out _ _ _ (_, k)) by (simpl; zbool).
  replace (k + 1 + (i - (k + 1))) with i by lia.
  replace (J1 + (j - J1)) with j by lia.
  rewrite !region_update_lookup_total, !region_update_lookup.
  rewrite Hperm. simpl.
  destruct (mat_A s !! (k, j)) as [tk|] eqn:Ek; simpl.
  - zbool.
  - zbool.
Qed.

Lemma run_update_cols t lay k i2 J1 J2 a1 p1 q1 p2 q2 l1 l2 s :
  k < J1 ->
  (forall pv col, permuteRows_col t lay pv col
                  = permuteRows_col Target.HostTask host_layout pv col) ->
  run (update_cols target t lay k i2 J1 J2 a1 p1 q1 p2 q2 l1 l2) s
  = update_state target s k i2 J1 J2.
Proof.
  intros Hk Hperm.
  set (cs := update_cols target t lay k i2 J1 J2 a1 p1 q1 p2 q2 l1 l2).
  assert (pivots (run cs s) = pivots s) as Hp by reflexivity.
  assert (Awork (run cs s) = Awork s) as Hw by reflexivity.
  pose proof (update_cols_lookup t lay k i2 J1 J2 a1 p1 q1 p2 q2 l1 l2 s)
    as HA. fold cs in HA.
  destruct (run cs s) as [A' pv' w']. simpl in *. subst pv' w'.
  unfold update_state. f_equal.
  apply map_eq. intros [i j].
  rewrite HA, region_update_lookup by done. done.
Qed.

(** The value of a column depends on that column, on the panel and on
    the pivots only. *)
Lemma col_value_ext s s' k i2 j i t0 :
  pivots s = pivots s' ->
  (forall i', mat_A s !! (i', j) = mat_A s' !! (i', j)) ->
  (forall i', mat_A s !! (i', k) = mat_A s' !! (i', k)) ->
  col_value target s k i2 j i t0 = col_value target s' k i2 j i t0.
Proof.
  intros Hp Hj Hk. unfold col_value.
  rewrite Hp, (col_tiles_ext (mat_A s) (mat_A s')) by done.
  rewrite !lookup_total_alt, !Hk, Hj. done.
Qed.

(** The columns [a..J-1] updated first, then the columns [J..J2]: the
    same as all of them at once. *)
Lemma update_state_split s k i2 a J J2 :
  k < a -> a <= J -> J - 1 <= J2 ->
  update_state target (update_state target s k i2 a (J - 1)) k i2 J J2
  = update_state target s k i2 a J2.
Proof.
  intros Hk Ha HJ. unfold update_state at 1 3. simpl. f_equal.
  apply map_eq. intros [i j'].
  rewrite !region_update_lookup. simpl.
  destruct (mat_A s !! (i, j')) as [t0|] eqn:E; simpl; [|done]. f_equal.
  destruct (decide (a <= j' <= J - 1)) as [Hin|Hout].
  - zbool.
  - replace ((a <=? j') && (j' <=? J - 1)) with false by (zbool).
    assert (col_value target (update_state target s k i2 a (J - 1)) k i2 j' i t0
            = col_value target s k i2 j' i t0) as ->.
    { apply col_value_ext; [done| |]; intros i'; simpl;
        rewrite region_update_lookup; simpl.
      - replace ((a <=? j') && (j' <=? J - 1)) with false by (zbool).
        by destruct (mat_A s !! (i', j')).
      - replace ((a <=? k) && (k <=? J - 1)) with false by (zbool).
        by destruct (mat_A s !! (i', k)). }
    zbool.
Qed.

(** Nothing to update right of the last column. *)
Lemma update_state_empty s k i2 J1 J2 :
  J2 < J1 -> update_state target s k i2 J1 J2 = s.
Proof.
  intros HJ. destruct s as [A pv w]. unfold update_state. simpl. f_equal.
  apply region_update_none. intros [i j]. simpl. zbool.
Qed.
End columns.

(** ** The lookahead width and the result *)

Section lookahead.
Context `{Kernels}.
Context (target : Target.t) (D : MatrixDesc) (ib max_panel_threads : Z).

Lemma run_lookahead_task k j s :
  permuteRows_agrees target -> k < j ->
  run (lookahead_task target D k j) s
  = update_state target s k (mt D - 1) j j.
Proof.
  intros Hperm Hk.
  rewrite <- (run_update_cols target target (target_layout target) k
                (mt D - 1) j j (Some (priority_one, to_int j, j - k + 1))
                priority_one (j - k + 1) priority_one (j - k + 1)
                ColMajor (target_layout target)) by done.
  reflexivity.
Qed.

Lemma run_trailing_task la k s :
  k < k + 1 + la ->
  run (trailing_task target D la k) s
  = update_state target s k (mt D - 1) (k + 1 + la) (nt D - 1).
Proof.
  intros Hk.
  rewrite <- (run_update_cols target Target.HostTask host_layout k
                (mt D - 1) (k + 1 + la) (nt D - 1)
                (Some (priority_zero, to_int (k + 1 + la), 1))
                priority_zero 1 priority_zero 1
                ColMajor (target_layout target)) by done.
  reflexivity.
Qed.

(** The lookahead loop over [n] columns from column [a]. *)
Lemma run_lookahead_loop k (n : nat) : forall a s,
  permuteRows_agrees target -> k < a ->
  run (j ← seqZ a (Z.of_nat n); lookahead_task target D k j) s
  = update_state target s k (mt D - 1) a (a + Z.of_nat n - 1).
Proof.
  induction n as [|n IH]; intros a s Hperm Hk.
  - simpl. symmetry. apply update_state_empty. lia.
  - rewrite seqZ_cons by lia. rewrite run_bind_cons.
    rewrite run_lookahead_task by done.
    replace (Z.pred (Z.of_nat (S n))) with (Z.of_nat n) by lia.
    rewrite IH by (done || lia).
    pose proof (update_state_split target s k (mt D - 1) a (Z.succ a)
                  (a + Z.of_nat (S n) - 1)) as HS.
    replace (Z.succ a - 1) with a in HS by lia.
    rewrite <- HS by lia. f_equal. lia.
Qed.

(** Lookahead columns and trailing submatrix together: every column right
    of the panel is updated once, whatever the width. *)
Lemma run_updates la k s :
  permuteRows_agrees target -> 0 <= la ->
  run ((j ← seqZ (k+1) (Z.min (k+1+la) (A_nt D) - (k+1));
        lookahead_task target D k j)
       ++ (if k+1+la <? A_nt D then trailing_task target D la k else [])) s
  = update_state target s k (mt D - 1) (k + 1) (nt D - 1).
Proof.
  intros Hperm Hla. unfold A_nt. rewrite run_app.
  destruct (Z.ltb_spec (k+1+la) (nt D)) as [Hlt|Hge].
  - replace (Z.min (k+1+la) (nt D) - (k+1)) with (Z.of_nat (Z.to_nat la))
      by lia.
    rewrite run_lookahead_loop, run_trailing_task by (done || lia).
    replace (k + 1 + Z.of_nat (Z.to_nat la) - 1) with (k + 1 + la - 1) by lia.
    apply update_state_split; lia.
  - rewrite run_nil.
    destruct (Z.le_gt_cases (k+1) (nt D)) as [Hle|Hgt].
    + replace (Z.min (k+1+la) (nt D) - (k+1))
        with (Z.of_nat (Z.to_nat (nt D - (k + 1)))) by lia.
      rewrite run_lookahead_loop by (done || lia).
      f_equal. lia.
    + rewrite seqZ_nil by lia. simpl.
      symmetry. apply update_state_empty. lia.
Qed.

Lemma run_release_tasks la k s :
  run (release_tasks target la k) s = s.
Proof.
  unfold release_tasks.
  destruct (decide _); [|done]. by destruct (is_shared la).
Qed.

(** One step of the loop over the panels, whatever the width. *)
Lemma run_getrf_ca_step la k s :
  permuteRows_agrees target -> 0 <= la ->
  run (getrf_ca_step target D ib max_panel_threads la k) s
  = run (getrf_ca_step target D ib max_panel_threads 0 k) s.
Proof.
  intros Hperm Hla. unfold getrf_ca_step.
  rewrite !(app_assoc [_; _]), !(app_assoc _ (panel_trsm_task _ _ _ _)).
  rewrite !(run_app (_ ++ panel_trsm_task _ _ _ _)).
  rewrite !(app_assoc _ _ (release_tasks _ _ _)).
  rewrite !(run_app _ (release_tasks _ _ _)), !run_release_tasks.
  rewrite !run_updates by (done || lia).
  f_equal.
Qed.

Lemma run_getrf_ca_calls la s :
  permuteRows_agrees target -> 0 <= la ->
  run (getrf_ca_calls target D ib max_panel_threads la) s
  = run (getrf_ca_calls target D ib max_panel_threads 0) s.
Proof.
  intros Hperm Hla. unfold getrf_ca_calls.
  rewrite !run_app. do 2 f_equal.
  apply run_bind_ext. intros k s' _. by apply run_getrf_ca_step.
Qed.
End lookahead.

(** ** The calls of the driver *)

(** Membership of a call in a part of the schedule, taken apart. *)
Ltac in_calls H :=
  repeat match type of H with
  | _ ∈ _ ++ _ => apply elem_of_app in H as [H|H]
  | _ ∈ _ :: _ => apply elem_of_cons in H as [H|H]
  | _ ∈ [] => by apply elem_of_nil in H
  | _ ∈ (_ ≫= _) => apply list_elem_of_bind in H as (? & H & ?)
  | _ ∈ (if ?b then _ else _) => destruct b
  end.

Ltac unfold_calls H :=
  unfold getrf_ca_calls, calls_before, calls_after, getrf_ca_step, panel_task,
    panel_trsm_task, lookahead_task, trailing_task, release_tasks, pivot_left
    in H.

Section schedule.
Context (target : Target.t) (D : MatrixDesc).
Context (ib max_panel_threads lookahead : Z).

Local Abbreviation calls :=
  (getrf_ca_calls target D ib max_panel_threads lookahead).
Local Abbreviation step :=
  (getrf_ca_step target D ib max_panel_threads lookahead).
Local Abbreviation before :=
  (calls_before target D ib max_panel_threads lookahead).
Local Abbreviation after :=
  (calls_after target D ib max_panel_threads lookahead).

Lemma seqZ_split (n k : Z) :
  0 <= k < n -> seqZ 0 n = seqZ 0 k ++ k :: seqZ (k + 1) (n - (k + 1)).
Proof.
  intros Hk. replace n with (k + (n - k)) at 1 by lia.
  rewrite seqZ_app by lia. f_equal.
  rewrite seqZ_cons by lia. simpl. f_equal. f_equal; lia.
Qed.

(** The schedule around step [k]. *)
Lemma getrf_ca_calls_split k :
  0 <= k < min_mt_nt D -> calls = before k ++ step k ++ after k.
Proof.
  intros Hk. unfold getrf_ca_calls, calls_before, calls_after.
  rewrite (seqZ_split (min_mt_nt D) k) at 1 by done.
  rewrite bind_app, bind_cons. by rewrite <- !app_assoc.
Qed.

(** The calls of step [k'] belong to panel [k']. *)
Lemma step_applies_pivots k k' c :
  c ∈ step k' -> applies_pivots k c = true -> k = k'.
Proof.
  intros Hc Ha. unfold_calls Hc. in_calls Hc; subst; simpl in Ha;
    try done; by apply bool_decide_eq_true in Ha.
Qed.

Lemma step_resizes_pivot k n c :
  c ∈ step k -> resizes_pivot n c = true -> n = Z.to_nat k.
Proof.
  intros Hc Ha. unfold_calls Hc. in_calls Hc; subst; simpl in Ha;
    try done; by apply bool_decide_eq_true in Ha.
Qed.

Lemma step_writes_pivot k n c :
  c ∈ step k -> writes_pivot n c = true -> n = Z.to_nat k.
Proof.
  intros Hc Ha. unfold_calls Hc. in_calls Hc; subst; simpl in Ha;
    try done; by apply bool_decide_eq_true in Ha.
Qed.

Lemma step_allocates_col k k' c :
  c ∈ step k' -> allocates_col k c = true -> k = k'.
Proof.
  intros Hc Ha. unfold_calls Hc. in_calls Hc; subst; simpl in Ha;
    try done. lia.
Qed.

(** After the loop, the pivot table and the workspace are left alone. *)
Lemma after_quiet k n c :
  0 <= k -> c ∈ after k ->
  (writes_pivot n c = true -> (Z.to_nat k < n)%nat)
  /\ allocates_col k c = false.
Proof.
  intros Hk Hc. unfold calls_after in Hc.
  apply elem_of_app in Hc as [Hc|Hc].
  - apply list_elem_of_bind in Hc as (k' & Hc & Hk').
    apply elem_of_seqZ in Hk'. split.
    + intros Hw. apply (step_writes_pivot _ _ _ Hc) in Hw. lia.
    + destruct (allocates_col k c) eqn:Ha; [|done].
      apply (step_allocates_col _ _ _ Hc) in Ha. lia.
  - unfold_calls Hc. in_calls Hc; subst; done.
Qed.
End schedule.

(** ** The pivot table along a run *)

Section pivot_table.
Context `{Kernels}.

Lemma exec_pivots_length c s :
  (forall n, c <> PivotsResize n) ->
  length (pivots (exec c s)) = length (pivots s).
Proof.
  intros Hc. destruct c; simpl; try done.
  - by destruct (Hc n).
  - by rewrite length_alter.
  - destruct (panel_getrf_ca _ _ _ _) as [[a w] p]. simpl.
    by rewrite length_alter.
Qed.

Lemma exec_pivot_length n c s :
  resizes_pivot n c = false ->
  length <$> pivots (exec c s) !! n = length <$> pivots s !! n.
Proof.
  intros Hc. destruct c; simpl in *; try done.
  - apply bool_decide_eq_false in Hc.
    by rewrite list_lookup_alter_ne.
  - destruct (panel_getrf_ca _ _ _ _) as [[a w] p]. simpl.
    rewrite list_lookup_alter. case_decide; [subst n|reflexivity].
    destruct (pivots s !! Z.to_nat k); simpl; [|done].
    unfold assign_pivots. by rewrite length_imap.
Qed.

Lemma exec_pivot_same n c s :
  writes_pivot n c = false -> pivots (exec c s) !! n = pivots s !! n.
Proof.
  intros Hc. destruct c; simpl in *; try done.
  - apply bool_decide_eq_false in Hc.
    by rewrite list_lookup_alter_ne.
  - apply bool_decide_eq_false in Hc.
    destruct (panel_getrf_ca _ _ _ _) as [[a w] p]. simpl.
    by rewrite list_lookup_alter_ne.
Qed.

Lemma run_pivots_length cs : forall s,
  Forall (fun c => forall n, c <> PivotsResize n) cs ->
  length (pivots (run cs s)) = length (pivots s).
Proof.
  induction cs as [|c cs IH]; intros s Hcs; [done|].
  apply Forall_cons in Hcs as [Hc Hcs].
  by rewrite run_cons, IH, exec_pivots_length.
Qed.

Lemma run_pivot_length n cs : forall s,
  Forall (fun c => resizes_pivot n c = false) cs ->
  length <$> pivots (run cs s) !! n = length <$> pivots s !! n.
Proof.
  induction cs as [|c cs IH]; intros s Hcs; [done|].
  apply Forall_cons in Hcs as [Hc Hcs].
  by rewrite run_cons, IH, exec_pivot_length.
Qed.

Lemma run_pivot_same n cs : forall s,
  Forall (fun c => writes_pivot n c = false) cs ->
  pivots (run cs s) !! n = pivots s !! n.
Proof.
  induction cs as [|c cs IH]; intros s Hcs; [done|].
  apply Forall_cons in Hcs as [Hc Hcs].
  by rewrite run_cons, IH, exec_pivot_same.
Qed.

Context (target : Target.t) (D : MatrixDesc).
Context (ib max_panel_threads lookahead : Z).

Local Abbreviation step :=
  (getrf_ca_step target D ib max_panel_threads lookahead).
Local Abbreviation before :=
  (calls_before target D ib max_panel_threads lookahead).
Local Abbreviation after :=
  (calls_after target D ib max_panel_threads lookahead).
Local Abbreviation step_tail :=
  (step_tail target D ib max_panel_threads lookahead).

(** When step [k] starts, the pivot table has its [min_mt_nt] slots. *)
Lemma before_pivots_length k s :
  length (pivots (run (before k) s)) = Z.to_nat (min_mt_nt D).
Proof.
  unfold calls_before. rewrite !run_app.
  rewrite run_pivots_length.
  - rewrite !run_cons, run_nil. simpl. by rewrite length_resize.
  - apply Forall_forall. intros c Hc n ->.
    apply list_elem_of_bind in Hc as (k' & Hc & _).
    unfold_calls Hc. in_calls Hc; done.
Qed.

Lemma step_unfold k :
  step k = PivotResize k (Z.min (tileMb D k) (tileNb D k))
           :: InsertLocalTiles (sub k (A_mt D - 1) k k) :: step_tail k.
Proof. reflexivity. Qed.

(** After the resize of step [k], slot [k] keeps its length to the end. *)
Lemma pivot_length_from_step k s cs1 cs2 :
  0 <= k < min_mt_nt D ->
  step_tail k ++ after k = cs1 ++ cs2 ->
  length <$> pivots (run (before k ++ [PivotResize k
               (Z.min (tileMb D k) (tileNb D k));
               InsertLocalTiles (sub k (A_mt D - 1) k k)] ++ cs1) s)
           !! Z.to_nat k
  = Some (Z.to_nat (Z.min (tileMb D k) (tileNb D k))).
Proof.
  intros Hk Hsplit. rewrite !run_app.
  rewrite run_pivot_length.
  - rewrite !run_cons, run_nil. simpl.
    rewrite list_lookup_alter_eq.
    destruct (lookup_lt_is_Some_2 (pivots (run (before k) s)) (Z.to_nat k))
      as [p Hp].
    { rewrite before_pivots_length. lia. }
    rewrite Hp. simpl. by rewrite length_resize.
  - assert (Forall (fun c => resizes_pivot (Z.to_nat k) c = false)
              (cs1 ++ cs2)) as HF; [|by apply Forall_app in HF as [? _]].
    rewrite <- Hsplit. apply Forall_app. split.
    + apply Forall_forall. intros c Hc.
      unfold step_tail in Hc. unfold_calls Hc. simpl in Hc.
      in_calls Hc; subst; done.
    + apply Forall_forall. intros c Hc.
      destruct (resizes_pivot (Z.to_nat k) c) eqn:E; [|done].
      assert (writes_pivot (Z.to_nat k) c = true) as Hw
        by (destruct c; done).
      apply (after_quiet target D ib max_panel_threads lookahead k
               (Z.to_nat k)) in Hc as [Hc _]; [|lia].
      apply Hc in Hw. lia.
Qed.

(** C6. [getrf_ca] leaves the pivot table with exactly
    [min(A.mt(), A.nt())] sequences, one per panel, and the sequence of
    every panel [k] has the length of the shorter side of the diagonal
    tile, [min(A.tileMb(k), A.tileNb(k))]. *)
Theorem getrf_ca_pivot_table (A : gmap (Z * Z) tile) (pv : Pivots) :
  let pv' := (specialization_getrf_ca target D ib max_panel_threads
                lookahead A pv).2 in
  length pv' = Z.to_nat (Z.min (mt D) (nt D))
  /\ forall k, 0 <= k < Z.min (mt D) (nt D) ->
       length <$> pv' !! Z.to_nat k
       = Some (Z.to_nat (Z.min (tileMb D k) (tileNb D k))).
Proof.
  intros pv'.
  assert (pv' = pivots (run (getrf_ca_calls target D ib max_panel_threads
                               lookahead) (mkState A pv ∅))) as ->
    by reflexivity.
  split.
  - unfold getrf_ca_calls.
    rewrite app_assoc, run_app.
    rewrite run_pivots_length.
    + rewrite run_app, !run_cons, run_nil. simpl. by rewrite length_resize.
    + apply Forall_forall. intros c Hc n ->. unfold_calls Hc.
      in_calls Hc; done.
  - intros k Hk.
    rewrite (getrf_ca_calls_split target D ib max_panel_threads lookahead k)
      by done.
    rewrite step_unfold.
    pose proof (pivot_length_from_step k (mkState A pv ∅)
                  (step_tail k ++ after k) [] Hk) as HL.
    rewrite app_nil_r in HL. specialize (HL eq_refl).
    rewrite <- HL. do 3 f_equal.
Qed.
End pivot_table.

(** ** The broadcast of the pivots *)

Section pivot_bcast.
Context `{Env} `{Kernels}.
Context (target : Target.t) (D : MatrixDesc).
Context (ib max_panel_threads lookahead : Z).

Local Abbreviation calls :=
  (getrf_ca_calls target D ib max_panel_threads lookahead).
Local Abbreviation step :=
  (getrf_ca_step target D ib max_panel_threads lookahead).
Local Abbreviation before :=
  (calls_before target D ib max_panel_threads lookahead).
Local Abbreviation after :=
  (calls_after target D ib max_panel_threads lookahead).

Lemma step_bcasts_pivots k k' c :
  c ∈ step k' -> bcasts_pivots k c = true -> k = k'.
Proof.
  intros Hc Ha. unfold_calls Hc. in_calls Hc; subst; simpl in Ha;
    try done; by apply bool_decide_eq_true in Ha.
Qed.

(** Before step [k], nothing concerns panel [k]. *)
Lemma before_quiet k c :
  c ∈ before k ->
  applies_pivots k c = false /\ bcasts_pivots k c = false.
Proof.
  intros Hc. unfold calls_before in Hc.
  rewrite app_assoc in Hc. apply elem_of_app in Hc as [Hc|Hc].
  - in_calls Hc; subst; done.
  - apply list_elem_of_bind in Hc as (k' & Hc & Hk').
    apply elem_of_seqZ in Hk'. split.
    + destruct (applies_pivots k c) eqn:E; [|done].
      apply (step_applies_pivots _ _ _ _ _ _ _ _ Hc) in E. lia.
    + destruct (bcasts_pivots k c) eqn:E; [|done].
      apply (step_bcasts_pivots _ _ _ Hc) in E. lia.
Qed.

Lemma after_no_bcast k c :
  c ∈ after k -> bcasts_pivots k c = false.
Proof.
  intros Hc. unfold calls_after in Hc.
  apply elem_of_app in Hc as [Hc|Hc].
  - apply list_elem_of_bind in Hc as (k' & Hc & Hk').
    apply elem_of_seqZ in Hk'.
    destruct (bcasts_pivots k c) eqn:E; [|done].
    apply (step_bcasts_pivots _ _ _ Hc) in E. lia.
  - unfold_calls Hc. in_calls Hc; subst; done.
Qed.

(** C4, as the code has it.  For every panel [k] the driver broadcasts the
    pivot sequence of the panel exactly once, from the process that owns
    the diagonal tile [(k, k)], as the [sizeof(Pivot) * length] raw bytes
    of the whole sequence.  The broadcast is the collective [MPI_Bcast],
    which carries no tag.  No row interchange of panel [k] is applied
    before it, the interchanges come after it, and the sequence they
    apply is the one that was broadcast. *)
Theorem pivots_broadcast_before_swaps (A : gmap (Z * Z) tile) (pv : Pivots)
    (k : Z) :
  0 <= k < Z.min (mt D) (nt D) ->
  exists pre post,
    let bcast := MPI_Bcast k (tileRank D k k) in
    let s0 := mkState A pv ∅ in
    getrf_ca_calls target D ib max_panel_threads lookahead
    = pre ++ bcast :: post
    /\ call_tag bcast = None
    /\ (forall c, c ∈ pre ->
          applies_pivots k c = false /\ bcasts_pivots k c = false)
    /\ (forall c, c ∈ post -> bcasts_pivots k c = false)
    /\ (exists c, c ∈ post /\ applies_pivots k c = true)
    /\ MPI_Bcast_count (run pre s0) k
       = sizeof_Pivot
         * Z.of_nat (Z.to_nat (Z.min (tileMb D k) (tileNb D k)))
    /\ (forall post1 post2, post = post1 ++ post2 ->
          pivots (run (pre ++ bcast :: post1) s0) !! Z.to_nat k
          = pivots (run pre s0) !! Z.to_nat k).
Proof.
  intros Hk.
  set (head := [ PivotResize k (Z.min (tileMb D k) (tileNb D k));
                 InsertLocalTiles (sub k (A_mt D - 1) k k);
                 PanelGetrf (sub k (A_mt D - 1) k k)
                   (sub k (A_mt D - 1) k k) k
                   (Z.min (tileMb D k) (tileNb D k)) ib max_panel_threads
                   priority_one ]).
  exists (before k ++ head), (drop 4 (step k) ++ after k).
  assert (step k = head ++ MPI_Bcast k (tileRank D k k) :: drop 4 (step k))
    as Hstep by reflexivity.
  cbv zeta. split; [|split; [|split; [|split; [|split; [|split]]]]].
  - rewrite (getrf_ca_calls_split target D ib max_panel_threads lookahead k)
      by done.
    rewrite Hstep. by rewrite <- !app_assoc.
  - reflexivity.
  - intros c Hc. apply elem_of_app in Hc as [Hc|Hc].
    + by apply before_quiet.
    + unfold head in Hc. in_calls Hc; subst; done.
  - intros c Hc. apply elem_of_app in Hc as [Hc|Hc].
    + simpl in Hc. unfold_calls Hc. in_calls Hc; subst; done.
    + by apply after_no_bcast.
  - eexists. split; [apply elem_of_app; left; simpl; left|].
    simpl. by apply bool_decide_eq_true.
  - unfold MPI_Bcast_count.
    pose proof (pivot_length_from_step target D ib max_panel_threads
                  lookahead k (mkState A pv ∅)
                  [PanelGetrf (sub k (A_mt D - 1) k k)
                     (sub k (A_mt D - 1) k k) k
                     (Z.min (tileMb D k) (tileNb D k)) ib max_panel_threads
                     priority_one]
                  (MPI_Bcast k (tileRank D k k) :: drop 4 (step k)
                   ++ after k) Hk eq_refl) as HL.
    rewrite list_lookup_total_alt.
    change (before k ++ head) with
      (before k ++ [PivotResize k (Z.min (tileMb D k) (tileNb D k));
                    InsertLocalTiles (sub k (A_mt D - 1) k k)]
                ++ [PanelGetrf (sub k (A_mt D - 1) k k)
                      (sub k (A_mt D - 1) k k) k
                      (Z.min (tileMb D k) (tileNb D k)) ib max_panel_threads
                      priority_one]).
    destruct (pivots _ !! Z.to_nat k) as [p|]; simpl in *; [|done].
    by injection HL as ->.
  - intros post1 post2 Hpost.
    rewrite (run_app _ (_ :: post1)), run_cons.
    apply run_pivot_same.
    assert (Forall (fun c => writes_pivot (Z.to_nat k) c = false)
              (post1 ++ post2)) as HF; [|by apply Forall_app in HF as [? _]].
    rewrite <- Hpost. apply Forall_app. split.
    + apply Forall_forall. intros c Hc. simpl in Hc.
      unfold_calls Hc. in_calls Hc; subst; done.
    + apply Forall_forall. intros c Hc.
      destruct (writes_pivot (Z.to_nat k) c) eqn:E; [|done].
      apply (after_quiet target D ib max_panel_threads lookahead k
               (Z.to_nat k)) in Hc as [Hc _]; [|lia].
      apply Hc in E. lia.
Qed.
End pivot_bcast.

(** ** The panel workspace *)

Section workspace.
Context `{Kernels}.

Lemma elem_of_sub_coords V (ij : Z * Z) :
  ij ∈ sub_coords V <-> in_sub V ij = true.
Proof.
  unfold sub_coords, in_sub. destruct ij as [i j]. simpl.
  rewrite list_elem_of_bind. split.
  - intros (j' & Hi & Hj). apply list_elem_of_bind in Hi as (i' & Hi & Hi').
    apply list_elem_of_singleton in Hi. injection Hi as -> ->.
    apply elem_of_seqZ in Hj, Hi'.
    repeat (apply andb_true_intro; split); lia.
  - intros Hin. repeat (apply andb_prop in Hin as [Hin ?]).
    exists j. split; [|apply elem_of_seqZ; lia].
    apply list_elem_of_bind. exists i. split; [by left|].
    apply elem_of_seqZ. lia.
Qed.

Lemma lookup_insert_tiles (x : tile) (l : list (Z * Z))
    (m : gmap (Z * Z) tile) (ij : Z * Z) :
  foldr (fun ij m => <[ij := x]> m) m l !! ij
  = if decide (ij ∈ l) then Some x else m !! ij.
Proof.
  induction l as [|a l IH]; simpl.
  - destruct (decide (ij ∈ [])) as [Hin|]; [|done].
    by apply elem_of_nil in Hin.
  - rewrite lookup_insert, IH.
    destruct (decide (a = ij)) as [->|Ha].
    + rewrite decide_True; [done|by left].
    + destruct (decide (ij ∈ l)) as [Hin|Hin].
      * rewrite decide_True; [done|by right].
      * rewrite decide_False; [done|].
        intros [->|?]%elem_of_cons; done.
Qed.

(** Only [insertLocalTiles] puts tiles into the workspace. *)
Lemma exec_Awork_empty c s :
  (forall V, c <> InsertLocalTiles V) ->
  Awork s = ∅ -> Awork (exec c s) = ∅.
Proof.
  intros Hc Hs. destruct c; simpl; try done.
  - by destruct (Hc V).
  - destruct (panel_getrf_ca _ _ _ _) as [[a w] p]. simpl.
    rewrite Hs. apply map_empty. intros ij.
    by rewrite region_update_lookup, lookup_empty.
  - rewrite Hs. apply map_filter_empty.
Qed.

Lemma run_Awork_empty cs : forall s,
  Forall (fun c => forall V, c <> InsertLocalTiles V) cs ->
  Awork s = ∅ -> Awork (run cs s) = ∅.
Proof.
  induction cs as [|c cs IH]; intros s Hcs Hs; [done|].
  apply Forall_cons in Hcs as [Hc Hcs].
  rewrite run_cons. apply IH; [done|]. by apply exec_Awork_empty.
Qed.

(** A call that allocates nothing in block column [k] leaves the column
    without workspace tiles. *)
Lemma exec_Awork_col k c s :
  allocates_col k c = false ->
  (forall i, Awork s !! (i, k) = None) ->
  forall i, Awork (exec c s) !! (i, k) = None.
Proof.
  intros Hc Hs i. destruct c; simpl in *; try done.
  - rewrite lookup_insert_tiles. case_decide as Hin; [|done].
    apply elem_of_sub_coords in Hin. unfold in_sub in Hin. simpl in Hin.
    repeat (apply andb_prop in Hin as [Hin ?]).
    apply andb_false_iff in Hc. lia.
  - destruct (panel_getrf_ca _ _ _ _) as [[a w] p]. simpl.
    by rewrite region_update_lookup, Hs.
  - apply map_lookup_filter_None. by left.
Qed.

Lemma run_Awork_col k cs : forall s,
  Forall (fun c => allocates_col k c = false) cs ->
  (forall i, Awork s !! (i, k) = None) ->
  forall i, Awork (run cs s) !! (i, k) = None.
Proof.
  induction cs as [|c cs IH]; intros s Hcs Hs; [done|].
  apply Forall_cons in Hcs as [Hc Hcs].
  rewrite run_cons. apply IH; [done|]. by apply exec_Awork_col.
Qed.

Context (target : Target.t) (D : MatrixDesc).
Context (ib max_panel_threads lookahead : Z).

Local Abbreviation calls :=
  (getrf_ca_calls target D ib max_panel_threads lookahead).
Local Abbreviation step :=
  (getrf_ca_step target D ib max_panel_threads lookahead).
Local Abbreviation before :=
  (calls_before target D ib max_panel_threads lookahead).
Local Abbreviation after :=
  (calls_after target D ib max_panel_threads lookahead).

(** From the allocation of the panel workspace to its release. *)
Lemma panel_task_clears k diag_len s :
  Awork s = ∅ ->
  Awork (run (InsertLocalTiles (sub k (A_mt D - 1) k k)
              :: panel_task target D ib max_panel_threads k diag_len
                   (sub k (A_mt D - 1) k k)) s) = ∅.
Proof.
  intros Hs. unfold panel_task, run. simpl.
  destruct (panel_getrf_ca _ _ _ _) as [[a w] p]. simpl.
  apply map_empty. intros ij. apply map_lookup_filter_None.
  rewrite region_update_lookup, lookup_insert_tiles, Hs, lookup_empty.
  case_decide as Hin; simpl.
  - right. intros x _. simpl. apply elem_of_sub_coords in Hin.
    rewrite Hin. by intros [].
  - by left.
Qed.

Lemma step_Awork_empty k s :
  Awork s = ∅ -> Awork (run (step k) s) = ∅.
Proof.
  intros Hs.
  change (step k) with
    ([PivotResize k (Z.min (tileMb D k) (tileNb D k))]
     ++ (InsertLocalTiles (sub k (A_mt D - 1) k k)
         :: panel_task target D ib max_panel_threads k
              (Z.min (tileMb D k) (tileNb D k)) (sub k (A_mt D - 1) k k))
     ++ drop 8 (step k)).
  rewrite !run_app. apply run_Awork_empty.
  - apply Forall_forall. intros c Hc V ->. simpl in Hc.
    unfold_calls Hc. in_calls Hc; done.
  - by apply panel_task_clears.
Qed.

Lemma steps_Awork_empty (l : list Z) : forall s,
  Awork s = ∅ -> Awork (run (k ← l; step k) s) = ∅.
Proof.
  induction l as [|k l IH]; intros s Hs; [done|].
  rewrite run_bind_cons. apply IH. by apply step_Awork_empty.
Qed.

(** The workspace is empty whenever a step starts. *)
Lemma before_Awork_empty k s : Awork (run (before k) s) = ∅.
Proof.
  unfold calls_before. rewrite !run_app.
  by apply steps_Awork_empty.
Qed.

(** C8. For every panel [k]: the tiles of the panel workspace [Apanel]
    are allocated before the panel kernel runs; the workspace is cleared
    right after the factored diagonal tile has been copied back and
    broadcast, in the same iteration of the loop; and from then on no
    workspace tile of panel [k] exists. *)
Theorem workspace_lifetime (A : gmap (Z * Z) tile) (pv : Pivots) (k : Z) :
  0 <= k < Z.min (mt D) (nt D) ->
  let Apanel := sub k (mt D - 1) k k in
  let diag_len := Z.min (tileMb D k) (tileNb D k) in
  let panel :=
    [ InsertLocalTiles Apanel;
      PanelGetrf (sub k (mt D - 1) k k) Apanel k diag_len ib
        max_panel_threads priority_one;
      MPI_Bcast k (tileRank D k k);
      PermuteRows Target.HostTask (sub k (mt D - 1) k k) k host_layout
        (Some (priority_one, to_int (k + 1), 0));
      Copy (sub_of Apanel 0 0 0 0) (sub k k k k);
      ListBcast target k k
        [sub (k + 1) (mt D - 1) k k; sub k k (k + 1) (nt D - 1)]
        host_layout (to_int k) life_factor_one true;
      Clear Apanel ] in
  let step := getrf_ca_step target D ib max_panel_threads lookahead k in
  let before := calls_before target D ib max_panel_threads lookahead k in
  let after := calls_after target D ib max_panel_threads lookahead k in
  exists rest,
    getrf_ca_calls target D ib max_panel_threads lookahead
    = before ++ step ++ after
    /\ step = PivotResize k diag_len :: panel ++ rest
    /\ let s1 := run (before ++ [PivotResize k diag_len])
                   (mkState A pv ∅) in
       Awork s1 = ∅
       /\ (forall i, k <= i <= mt D - 1 ->
             is_Some (Awork (exec (InsertLocalTiles Apanel) s1) !! (i, k)))
       /\ Awork (run panel s1) = ∅
       /\ (forall post1 post2, rest ++ after = post1 ++ post2 ->
             forall i, Awork (run post1 (run panel s1)) !! (i, k) = None).
Proof.
  intros Hk Apanel diag_len panel step' before' after'.
  subst step' before' after'. exists (drop 8 (step k)).
  split; [by apply getrf_ca_calls_split|].
  split; [reflexivity|].
  cbv zeta.
  assert (Awork (run (before k ++ [PivotResize k diag_len])
                   (mkState A pv ∅)) = ∅) as Hs1.
  { rewrite run_app. apply run_Awork_empty; [by repeat constructor|].
    apply before_Awork_empty. }
  assert (Awork (run panel (run (before k ++ [PivotResize k diag_len])
                              (mkState A pv ∅))) = ∅) as Hs2.
  { by apply (panel_task_clears k diag_len). }
  split; [done|]. split; [|split; [done|]].
  - intros i Hi. simpl. rewrite lookup_insert_tiles.
    rewrite decide_True; [done|].
    apply elem_of_sub_coords. unfold in_sub, Apanel. simpl.
    repeat (apply andb_true_intro; split); lia.
  - intros post1 post2 Hpost. apply run_Awork_col.
    + assert (Forall (fun c => allocates_col k c = false)
                (post1 ++ post2)) as HF;
        [|by apply Forall_app in HF as [? _]].
      rewrite <- Hpost. apply Forall_app. split.
      * apply Forall_forall. intros c Hc. simpl in Hc.
        unfold_calls Hc. in_calls Hc; subst; done.
      * apply Forall_forall. intros c Hc.
        by apply (after_quiet target D ib max_panel_threads lookahead k
                    0%nat) in Hc as [_ Hc]; [|lia].
    + intros i. by rewrite Hs2, lookup_empty.
Qed.
End workspace.

(** ** Tags and modes of the tile broadcasts *)

Section broadcasts.
Context (target : Target.t) (D : MatrixDesc).
Context (ib max_panel_threads lookahead : Z).

Local Abbreviation calls :=
  (getrf_ca_calls target D ib max_panel_threads lookahead).
Local Abbreviation step :=
  (getrf_ca_step target D ib max_panel_threads lookahead).

(** The list broadcasts of step [k] are the one of the panel tiles and,
    when columns remain, the one of the trailing row. *)
Lemma step_ListBcastMT k t l lay a :
  ListBcastMT t l lay a ∈ step k ->
  (l = panel_bcast_list D k /\ a = Some (life_factor_one, is_shared lookahead))
  \/ (l = trailing_bcast_list D lookahead k /\ a = None).
Proof.
  intros Hc. unfold_calls Hc. in_calls Hc; try done.
  - left. by injection Hc as _ -> _ ->.
  - right. by injection Hc as _ -> _ ->.
Qed.

Lemma elem_of_panel_bcast_list k e :
  e ∈ panel_bcast_list D k ->
  bc_j e = k /\ k + 1 <= bc_i e <= mt D - 1 /\ bc_tag e = bc_i e.
Proof.
  intros (i & -> & Hi)%list_elem_of_fmap. apply elem_of_seqZ in Hi.
  unfold A_mt in Hi. simpl. lia.
Qed.

Lemma elem_of_trailing_bcast_list k e :
  e ∈ trailing_bcast_list D lookahead k ->
  bc_i e = k /\ k + 1 + lookahead <= bc_j e <= nt D - 1
  /\ bc_tag e = bc_j e + mt D.
Proof.
  intros (j & -> & Hj)%list_elem_of_fmap. apply elem_of_seqZ in Hj.
  unfold A_nt in Hj. simpl. unfold A_mt. lia.
Qed.

(** C5. In every step [k], a broadcast of a panel tile [A(i, k)] to the
    right and a broadcast of a tile [A(k, j)] of the trailing row carry
    different tags: the tags of the two broadcast lists of the step are
    disjoint. *)
Theorem panel_and_trailing_tags_disjoint k t1 l1 lay1 a1 t2 l2 lay2 a2
    e1 e2 :
  0 <= k -> 0 <= lookahead ->
  ListBcastMT t1 l1 lay1 a1
    ∈ getrf_ca_step target D ib max_panel_threads lookahead k ->
  ListBcastMT t2 l2 lay2 a2
    ∈ getrf_ca_step target D ib max_panel_threads lookahead k ->
  e1 ∈ l1 -> e2 ∈ l2 ->
  bc_j e1 = k -> bc_i e2 = k ->
  bc_tag e1 <> bc_tag e2.
Proof.
  intros Hk Hla H1 H2 He1 He2 Hj Hi.
  apply step_ListBcastMT in H1 as [[-> _]|[-> _]];
    apply step_ListBcastMT in H2 as [[-> _]|[-> _]];
    repeat match goal with
    | H : _ ∈ panel_bcast_list _ _ |- _ =>
        apply elem_of_panel_bcast_list in H
    | H : _ ∈ trailing_bcast_list _ _ _ |- _ =>
        apply elem_of_trailing_bcast_list in H
    end; lia.
Qed.

(** C9. The list broadcast of the factored panel tiles to the right is in
    shared mode exactly when the lookahead is positive; with lookahead 0
    the tiles are for a single use.  Every step issues that broadcast, and
    no list broadcast of a tile below the diagonal is in another mode. *)
Theorem panel_bcast_shared_iff_lookahead k :
  0 <= k < Z.min (mt D) (nt D) ->
  exists shared,
    ListBcastMT target (panel_bcast_list D k) ColMajor
      (Some (life_factor_one, shared))
      ∈ getrf_ca_calls target D ib max_panel_threads lookahead
    /\ (shared = true <-> 0 < lookahead)
    /\ (lookahead = 0 -> shared = false)
    /\ (0 <= lookahead ->
        forall t l lay a e,
          ListBcastMT t l lay a
            ∈ getrf_ca_step target D ib max_panel_threads lookahead k ->
          e ∈ l -> bc_j e < bc_i e ->
          a = Some (life_factor_one, shared)).
Proof.
  intros Hk. exists (is_shared lookahead). split; [|split; [|split]].
  - rewrite (getrf_ca_calls_split target D ib max_panel_threads lookahead k)
      by done.
    apply elem_of_app. right. apply elem_of_app. left.
    unfold getrf_ca_step.
    apply elem_of_app. right. apply elem_of_app. right.
    apply elem_of_app. left. right. left.
  - unfold is_shared. by rewrite Z.ltb_lt.
  - intros ->. reflexivity.
  - intros Hla t l lay a e Hc He Hlt.
    apply step_ListBcastMT in Hc as [[-> ->]|[-> _]]; [done|].
    apply elem_of_trailing_bcast_list in He. lia.
Qed.
End broadcasts.

(** ** The lookahead option *)

Section lookahead_option.
Context `{Env} `{Kernels}.

Lemma opt_lookahead_insert (opts : Options) (la : Z) :
  0 <= la ->
  opt_lookahead (<[Option.Lookahead := mkValue la]> opts) = Ok la.
Proof.
  intros Hla. unfold opt_lookahead. rewrite lookup_insert_eq. simpl.
  unfold assert. replace (0 <=? la) with true by lia.
  by rewrite orb_true_r.
Qed.

(** On the host target the assumption on the row interchanges holds by
    itself: the lookahead tasks and the trailing task call the same
    routine with the same layout. *)
Lemma permuteRows_agrees_HostTask : permuteRows_agrees Target.HostTask.
Proof. intros pv col. reflexivity. Qed.

(** C1. For every matrix, every distribution over processes and every
    value of the lookahead option, 0 included, [getrf_ca] leaves the same
    factors in [A] and the same pivot sequences: the width moves columns
    between the lookahead tasks and the trailing task and changes nothing
    else.  The row interchanges on the selected target are assumed to
    compute what they compute on the host. *)
Theorem getrf_ca_lookahead_invariant (D : MatrixDesc)
    (A : gmap (Z * Z) tile) (pv : Pivots) (opts : Options) (la1 la2 : Z) :
  (forall target, opt_target opts = Some target ->
                  permuteRows_agrees target) ->
  0 <= la1 -> 0 <= la2 ->
  getrf_ca D A pv (<[Option.Lookahead := mkValue la1]> opts)
  = getrf_ca D A pv (<[Option.Lookahead := mkValue la2]> opts).
Proof.
  intros Hperm H1 H2.
  assert (forall la, opt_target (<[Option.Lookahead := mkValue la]> opts)
                     = opt_target opts) as Ht.
  { intros la. unfold opt_target. by rewrite lookup_insert_ne. }
  unfold getrf_ca. rewrite !Ht.
  destruct (opt_target opts) as [target|]; [|done].
  specialize (Hperm target eq_refl).
  assert (forall la, 0 <= la ->
            getrf_ca_target target D A pv
              (<[Option.Lookahead := mkValue la]> opts)
            = getrf_ca_target target D A pv
                (<[Option.Lookahead := mkValue 0]> opts)) as Htarget.
  { intros la Hla. unfold getrf_ca_target.
    rewrite !opt_lookahead_insert by lia.
    unfold opt_ib, opt_max_panel_threads.
    rewrite !lookup_insert_ne by done. simpl.
    destruct (opts !! Option.InnerBlocking) as [vib|]; simpl;
      [destruct (assert _); simpl; [|done]|];
      (destruct (opts !! Option.MaxPanelThreads) as [vmt|]; simpl;
         [destruct (assert _); simpl; [|done]|]);
      unfold specialization_getrf_ca;
      by rewrite (run_getrf_ca_calls _ _ _ _ la). }
  by rewrite (Htarget la1), (Htarget la2).
Qed.
End lookahead_option.

(** ** The options of getrf_ca *)

Section options_resolution.
Context `{Env} `{Kernels}.

(** C3, as the code has it.  A missing option takes the documented
    default (lookahead 1, inner blocking 16, panel threads half the host
    threads and at least 1) and the call goes on.  An option that is
    present is never replaced by its default: its value is used as given
    when it satisfies the assertion (lookahead >= 0, inner blocking >= 0,
    1 <= panel threads <= host threads) or when assertions are compiled
    out; otherwise the assertion fails and the call is aborted. *)
Theorem getrf_ca_options_resolution (target : Target.t) (D : MatrixDesc)
    (A : gmap (Z * Z) tile) (pv : Pivots) (opts : Options) :
  let o_la := opts !! Option.Lookahead in
  let o_ib := opts !! Option.InnerBlocking in
  let o_mt := opts !! Option.MaxPanelThreads in
  getrf_ca_target target D A pv opts
  = if option_passes (fun v => 0 <=? v) o_la
       && option_passes (fun v => 0 <=? v) o_ib
       && option_passes
            (fun v => (1 <=? v) && (v <=? omp_get_max_threads)) o_mt
    then Ok (specialization_getrf_ca target D
               (option_value 16 o_ib)
               (to_int (option_value (Z.max (omp_get_max_threads ÷ 2) 1)
                          o_mt))
               (option_value 1 o_la) A pv)
    else Aborted.
Proof.
  cbv zeta.
  unfold getrf_ca_target, opt_lookahead, opt_ib, opt_max_panel_threads,
    option_passes, option_value, assert.
  destruct (opts !! Option.Lookahead) as [vla|]; simpl;
    [destruct (NDEBUG || (0 <=? i_ vla)); simpl; [|done]|];
    (destruct (opts !! Option.InnerBlocking) as [vib|]; simpl;
       [destruct (NDEBUG || (0 <=? i_ vib)); simpl; [|done]|]);
    (destruct (opts !! Option.MaxPanelThreads) as [vmt|]; simpl;
       [destruct (NDEBUG || _); simpl; done|done]).
Qed.
End options_resolution.

(** ** gbsv *)

Section gbsv_composition.
Context `{Env} `{BandSolver}.

(** C10. For every band matrix, right-hand side and options map that
    [gbsv] accepts, [gbsv] is the factorization [gbtrf] on [(A, pivots)]
    followed by the solve [gbtrs] on [(A, pivots, B)]: the solve receives
    the matrix and the pivots as the factorization left them, and both
    receive the lookahead and the target that [gbsv] read once from its
    options. *)
Theorem gbsv_is_gbtrf_then_gbtrs (A : BandMatrix) (pv : Pivots) (B : Matrix)
    (opts : Options) (target : Target.t) (lookahead ib mpt : Z) :
  opt_target opts = Some target ->
  opt_lookahead opts = Ok lookahead ->
  opt_ib opts = Ok ib ->
  opt_max_panel_threads_gbsv opts = Ok mpt ->
  exists opts_trf opts_trs : Options,
    gbsv A pv B opts
    = Ok (tt, let '(A1, pv1) := gbtrf A pv opts_trf in
              gbtrs A1 pv1 B opts_trs)
    /\ opts_trf !! Option.Lookahead = Some (mkValue lookahead)
    /\ opts_trs !! Option.Lookahead = Some (mkValue lookahead)
    /\ opts_trf !! Option.Target = Some (mkValue (Target_code target))
    /\ opts_trs !! Option.Target = Some (mkValue (Target_code target))
    /\ opts_trf !! Option.InnerBlocking = Some (mkValue ib)
    /\ opts_trf !! Option.MaxPanelThreads = Some (mkValue (to_int mpt))
    /\ opts_trs !! Option.InnerBlocking = None
    /\ opts_trs !! Option.MaxPanelThreads = None.
Proof.
  intros Ht Hla Hib Hmt.
  eexists _, _. split.
  - unfold gbsv, gbsv_target. rewrite Ht, Hla, Hib, Hmt. simpl.
    unfold specialization_gbsv. reflexivity.
  - repeat split.
Qed.
End gbsv_composition.

(** ** Scenarios on tiles of block size 1 *)

Section scenarios.
Import Scalar.

(** C7. The identity on a 4-by-4 grid of tiles of block size 1 factors
    without any row swap, every pivot record exchanging a row with itself;
    the matrix is left as the identity, so that L and U are the identity;
    no diagonal entry of U is zero and nothing is reported to the caller.
    This holds with the default options and on every target with every
    lookahead from 0 to 3. *)
Theorem getrf_ca_identity_4x4 :
  let expected := Ok (tt, (identity 4, replicate 4 [mkPivot 0 0])) in
  getrf_ca (grid 4) (identity 4) [] ∅ = expected
  /\ Forall (fun t =>
       Forall (fun la =>
         getrf_ca (grid 4) (identity 4) [] (with_options t la) = expected)
         [0; 1; 2; 3]) Target.all
  /\ no_row_swaps (replicate 4 [mkPivot 0 0]) = true
  /\ Forall (fun i => identity 4 !! (i, i) = Some 1%Q) [0; 1; 2; 3].
Proof.
  cbv zeta. split; [by vm_compute|]. split; [|split].
  - repeat (apply Forall_cons; split);
      try apply Forall_nil; by vm_compute.
  - by vm_compute.
  - repeat (apply Forall_cons; split);
      try apply Forall_nil; by vm_compute.
Qed.

(** C2, on the code.  The matrix of ones on a 2-by-2 grid has its second
    diagonal pivot exactly zero.  The factorization runs to its end, and
    the caller is handed the unit value, the same as for the identity:
    the entry point is declared [void] and reports no index. *)
Theorem getrf_ca_reports_nothing :
  (exists A' pv',
     getrf_ca (grid 2) (ones 2) [] ∅ = Ok (tt, (A', pv'))
     /\ A' !! (0, 0) = Some 1%Q /\ A' !! (1, 1) = Some 0%Q)
  /\ (exists A' pv',
        getrf_ca (grid 2) (identity 2) [] ∅ = Ok (tt, (A', pv'))
        /\ A' !! (0, 0) = Some 1%Q /\ A' !! (1, 1) = Some 1%Q).
Proof.
  split; eexists _, _; (split; [by vm_compute|]); by vm_compute.
Qed.

(** The assertion [lookahead >= 0] matters: where it is compiled out, a
    negative width makes the trailing task reach back into the panel,
    and the factors differ from those of every non-negative width. *)
Remark negative_lookahead_differs :
  (specialization_getrf_ca Target.HostTask (grid 3) 16 2 (-1) sample []).1
    !! (0, 0)
  <> (specialization_getrf_ca Target.HostTask (grid 3) 16 2 0 sample []).1
       !! (0, 0).
Proof. by vm_compute. Qed.
End scenarios.

(** ** The statements at concrete inputs *)

Section witnesses.
Import Scalar.

Ltac in_list := vm_compute; repeat first [by left | right].

(** C1 at the 3-by-3 sample matrix on the device target: lookahead 0 and
    lookahead 2. *)
Lemma getrf_ca_lookahead_invariant_witness :
  0 <= 0 /\ 0 <= 2
  /\ getrf_ca (grid 3) sample []
       (<[Option.Lookahead := mkValue 0]> (with_options Target.Devices 1))
     = getrf_ca (grid 3) sample []
         (<[Option.Lookahead := mkValue 2]> (with_options Target.Devices 1)).
Proof.
  split; [lia|]. split; [lia|].
  apply getrf_ca_lookahead_invariant; [|lia|lia].
  intros t _ pv col. reflexivity.
Defined.

(** C3: a negative lookahead.  With assertions the call is aborted, where
    the specification has it go on with lookahead 1; without assertions the
    driver runs with lookahead -1. *)
Lemma negative_lookahead_is_not_defaulted :
  let opts : Options := {[ Option.Lookahead := mkValue (-1) ]} in
  getrf_ca_target Target.HostTask (grid 3) sample [] opts = Aborted
  /\ claimed_getrf_ca_target Target.HostTask (grid 3) sample [] opts
     = getrf_ca_target Target.HostTask (grid 3) sample []
         {[ Option.Lookahead := mkValue 1 ]}
  /\ getrf_ca_target Target.HostTask (grid 3) sample [] opts
     <> claimed_getrf_ca_target Target.HostTask (grid 3) sample [] opts
  /\ @opt_lookahead env_ndebug opts = Ok (-1).
Proof.
  cbv zeta. split; [by vm_compute|]. split; [by vm_compute|].
  split; [by vm_compute|]. by vm_compute.
Qed.

(** C4: on a single tile the only broadcast of the pivots of panel 0 is
    the [MPI_Bcast], and it carries no tag. *)
Lemma pivot_bcast_has_no_tag :
  ~ pivot_bcast_tagged (getrf_ca_calls Target.HostTask (grid 1) 16 2 1) 0.
Proof.
  intros (c & Hc & Hb & Ht). vm_compute in Hc.
  repeat (apply elem_of_cons in Hc as [->|Hc]; [done|]).
  by apply elem_of_nil in Hc.
Qed.

(** C4, amended, at panel 1 of the 3-by-3 sample. *)
Lemma pivots_broadcast_before_swaps_witness :
  0 <= 1 < Z.min (mt (grid 3)) (nt (grid 3))
  /\ exists pre post,
       getrf_ca_calls Target.HostTask (grid 3) 16 2 1
       = pre ++ MPI_Bcast 1 (tileRank (grid 3) 1 1) :: post
       /\ (forall c, c ∈ pre -> applies_pivots 1 c = false
                                /\ bcasts_pivots 1 c = false).
Proof.
  split; [by vm_compute|].
  destruct (@pivots_broadcast_before_swaps env kernels Target.HostTask
              (grid 3) 16 2 1 sample [] 1) as (pre & post & Hc & _ & Hpre & _).
  - by vm_compute.
  - by exists pre, post.
Defined.

(** C5 at step 0 of a 4-by-4 grid with lookahead 1: tile [A(1, 0)] of the
    panel against tile [A(0, 2)] of the trailing row. *)
Lemma panel_and_trailing_tags_disjoint_witness :
  let e1 := mkBcastTag 1 0 [sub 1 1 1 3] 1 in
  let e2 := mkBcastTag 0 2 [sub 1 3 2 2] 6 in
  e1 ∈ panel_bcast_list (grid 4) 0
  /\ e2 ∈ trailing_bcast_list (grid 4) 1 0
  /\ bc_tag e1 <> bc_tag e2.
Proof.
  cbv zeta. split; [in_list|]. split; [in_list|].
  apply (panel_and_trailing_tags_disjoint Target.HostTask (grid 4) 16 2 1 0
           Target.HostTask (panel_bcast_list (grid 4) 0) ColMajor
           (Some (1, true))
           Target.HostTask (trailing_bcast_list (grid 4) 1 0) ColMajor
           None);
    try done; in_list.
Defined.

(** C6 at the 3-by-3 sample: three sequences, the one of panel 1 of
    length 1. *)
Lemma getrf_ca_pivot_table_witness :
  0 <= 1 < Z.min (mt (grid 3)) (nt (grid 3))
  /\ length <$> (specialization_getrf_ca Target.HostTask (grid 3) 16 2 1
                   sample []).2 !! 1%nat
     = Some 1%nat.
Proof.
  split; [by vm_compute|].
  apply (proj2 (@getrf_ca_pivot_table kernels Target.HostTask (grid 3) 16 2 1
                  sample []) 1).
  by vm_compute.
Defined.

(** C8 at panel 1 of the 3-by-3 sample. *)
Lemma workspace_lifetime_witness :
  0 <= 1 < Z.min (mt (grid 3)) (nt (grid 3))
  /\ Awork (run (calls_before Target.HostTask (grid 3) 16 2 1 1
                 ++ [PivotResize 1 1]) (mkState sample [] ∅)) = ∅.
Proof.
  split; [by vm_compute|].
  destruct (@workspace_lifetime kernels Target.HostTask (grid 3) 16 2 1
              sample [] 1)
    as (rest & _ & _ & Hs & _).
  - by vm_compute.
  - exact Hs.
Defined.

(** C9 at panel 0 of a 4-by-4 grid with lookahead 2. *)
Lemma panel_bcast_shared_iff_lookahead_witness :
  0 <= 0 < Z.min (mt (grid 4)) (nt (grid 4))
  /\ ListBcastMT Target.HostTask (panel_bcast_list (grid 4) 0) ColMajor
       (Some (1, true)) ∈ getrf_ca_calls Target.HostTask (grid 4) 16 2 2.
Proof.
  split; [by vm_compute|].
  destruct (panel_bcast_shared_iff_lookahead Target.HostTask (grid 4) 16 2
              2 0) as (shared & Hc & Hs & _).
  - by vm_compute.
  - replace shared with true in Hc; [exact Hc|].
    symmetry. apply Hs. lia.
Defined.

(** C10 on the system [2 x = 6] with the default options. *)
Lemma gbsv_is_gbtrf_then_gbtrs_witness :
  @opt_target env ∅ = Some Target.HostTask
  /\ @opt_lookahead env ∅ = Ok 1
  /\ @gbsv env band_solver_1 2%Q [] 6%Q ∅
     = Ok (tt, (2%Q, [[mkPivot 0 0]], 3%Q)).
Proof.
  split; [reflexivity|]. split; [reflexivity|].
  destruct (@gbsv_is_gbtrf_then_gbtrs env band_solver_1 2%Q [] 6%Q ∅
              Target.HostTask 1 16 2)
    as (o1 & o2 & Hg & _); [reflexivity..|].
  rewrite Hg. reflexivity.
Defined.
End witnesses.

(** * Further properties of getrf_ca and gbsv *)

(** ** The target option *)

Section target_option.
Context `{Env}.

Lemma Target_of_code_Host :
  Target_of_code (Target_code Target.Host) = Some Target.Host.
Proof.
  unfold Target_of_code. simpl. by rewrite bool_decide_eq_true_2.
Qed.

Lemma Target_of_code_HostTask :
  Target_of_code (Target_code Target.HostTask) = Some Target.Host
  \/ Target_of_code (Target_code Target.HostTask) = Some Target.HostTask.
Proof.
  unfold Target_of_code. simpl.
  destruct (bool_decide (Target_code Target.Host
                         = Target_code Target.HostTask)); [by left|].
  right. by rewrite bool_decide_eq_true_2.
Qed.

Lemma opt_target_Host (opts : Options) :
  opt_target (<[Option.Target := mkValue (Target_code Target.Host)]> opts)
  = Some Target.HostTask.
Proof.
  unfold opt_target. rewrite lookup_insert_eq. simpl.
  by rewrite Target_of_code_Host.
Qed.

Lemma opt_target_HostTask (opts : Options) :
  opt_target
    (<[Option.Target := mkValue (Target_code Target.HostTask)]> opts)
  = Some Target.HostTask.
Proof.
  unfold opt_target. rewrite lookup_insert_eq. simpl.
  by destruct Target_of_code_HostTask as [-> | ->].
Qed.

Lemma opt_target_delete (opts : Options) :
  opt_target (delete Option.Target opts) = Some Target.HostTask.
Proof. unfold opt_target. by rewrite lookup_delete_eq. Qed.


(** The three option blocks read their own key only. *)
Lemma opt_lookahead_ext (o1 o2 : Options) :
  o1 !! Option.Lookahead = o2 !! Option.Lookahead ->
  opt_lookahead o1 = opt_lookahead o2.
Proof. unfold opt_lookahead. by intros ->. Qed.

Lemma opt_ib_ext (o1 o2 : Options) :
  o1 !! Option.InnerBlocking = o2 !! Option.InnerBlocking ->
  opt_ib o1 = opt_ib o2.
Proof. unfold opt_ib. by intros ->. Qed.

Lemma opt_max_panel_threads_ext (o1 o2 : Options) :
  o1 !! Option.MaxPanelThreads = o2 !! Option.MaxPanelThreads ->
  opt_max_panel_threads o1 = opt_max_panel_threads o2.
Proof. unfold opt_max_panel_threads. by intros ->. Qed.

Lemma opt_max_panel_threads_gbsv_ext (o1 o2 : Options) :
  o1 !! Option.MaxPanelThreads = o2 !! Option.MaxPanelThreads ->
  opt_max_panel_threads_gbsv o1 = opt_max_panel_threads_gbsv o2.
Proof. unfold opt_max_panel_threads_gbsv. by intros ->. Qed.

Lemma opt_target_ext (o1 o2 : Options) :
  o1 !! Option.Target = o2 !! Option.Target ->
  opt_target o1 = opt_target o2.
Proof. unfold opt_target. by intros ->. Qed.
End target_option.

Section getrf_ca_target_option.
Context `{Env} `{Kernels}.

Lemma getrf_ca_target_ext target D A pv (o1 o2 : Options) :
  o1 !! Option.Lookahead = o2 !! Option.Lookahead ->
  o1 !! Option.InnerBlocking = o2 !! Option.InnerBlocking ->
  o1 !! Option.MaxPanelThreads = o2 !! Option.MaxPanelThreads ->
  getrf_ca_target target D A pv o1 = getrf_ca_target target D A pv o2.
Proof.
  intros Hla Hib Hmt. unfold getrf_ca_target.
  by rewrite (opt_lookahead_ext o1 o2), (opt_ib_ext o1 o2),
    (opt_max_panel_threads_ext o1 o2).
Qed.

(** X1. [Target::Host] is an alias of [Target::HostTask], which is also what
    a missing target option selects: the three calls of [getrf_ca] run
    the same instantiation. *)
Theorem getrf_ca_Host_is_HostTask (D : MatrixDesc)
    (A : gmap (Z * Z) tile) (pv : Pivots) (opts : Options) :
  getrf_ca D A pv
    (<[Option.Target := mkValue (Target_code Target.Host)]> opts)
  = getrf_ca D A pv (delete Option.Target opts)
  /\ getrf_ca D A pv
       (<[Option.Target := mkValue (Target_code Target.HostTask)]> opts)
     = getrf_ca D A pv (delete Option.Target opts).
Proof.
  unfold getrf_ca.
  rewrite opt_target_Host, opt_target_HostTask, opt_target_delete.
  split; f_equal; apply getrf_ca_target_ext;
    by rewrite lookup_insert_ne, lookup_delete_ne.
Qed.


(** X3. Writing out the documented default of every option that is missing
    changes nothing, on a host with at least one thread. *)
Theorem getrf_ca_explicit_defaults (D : MatrixDesc)
    (A : gmap (Z * Z) tile) (pv : Pivots) (opts : Options) :
  1 <= omp_get_max_threads ->
  getrf_ca D A pv (opts ∪ default_options) = getrf_ca D A pv opts.
Proof.
  intros Hthreads.
  assert (forall key, (opts ∪ default_options) !! key
                      = match opts !! key with
                        | Some v => Some v
                        | None => default_options !! key
                        end) as Hlookup.
  { intros key. rewrite lookup_union.
    destruct (opts !! key), (default_options !! key); done. }
  assert (opt_target (opts ∪ default_options) = opt_target opts) as Ht.
  { unfold opt_target. rewrite Hlookup.
    destruct (opts !! Option.Target); [done|].
    change (default_options !! Option.Target)
      with (Some (mkValue (Target_code Target.HostTask))). simpl.
    by destruct Target_of_code_HostTask as [-> | ->]. }
  assert (opt_lookahead (opts ∪ default_options) = opt_lookahead opts)
    as Hla.
  { unfold opt_lookahead. rewrite Hlookup.
    destruct (opts !! Option.Lookahead); [done|].
    change (default_options !! Option.Lookahead) with (Some (mkValue 1)).
    simpl. unfold assert. simpl. by rewrite orb_true_r. }
  assert (opt_ib (opts ∪ default_options) = opt_ib opts) as Hib.
  { unfold opt_ib. rewrite Hlookup.
    destruct (opts !! Option.InnerBlocking); [done|].
    change (default_options !! Option.InnerBlocking)
      with (Some (mkValue 16)).
    simpl. unfold assert. simpl. by rewrite orb_true_r. }
  assert (opt_max_panel_threads (opts ∪ default_options)
          = opt_max_panel_threads opts) as Hmt.
  { unfold opt_max_panel_threads. rewrite Hlookup.
    destruct (opts !! Option.MaxPanelThreads); [done|].
    change (default_options !! Option.MaxPanelThreads)
      with (Some (mkValue (Z.max (omp_get_max_threads ÷ 2) 1))).
    simpl. unfold assert.
    pose proof (Z.quot_pos omp_get_max_threads 2).
    assert (omp_get_max_threads ÷ 2 <= omp_get_max_threads).
    { apply Z.quot_le_upper_bound; lia. }
    replace ((1 <=? Z.max (omp_get_max_threads ÷ 2) 1)
             && (Z.max (omp_get_max_threads ÷ 2) 1
                 <=? omp_get_max_threads)) with true by lia.
    by rewrite orb_true_r. }
  unfold getrf_ca, getrf_ca_target. by rewrite Ht, Hla, Hib, Hmt.
Qed.
End getrf_ca_target_option.

(** ** The options of gbsv *)

Section gbsv_options.
Context `{Env} `{BandSolver}.

Lemma gbsv_target_ext target A pv B (o1 o2 : Options) :
  o1 !! Option.Lookahead = o2 !! Option.Lookahead ->
  o1 !! Option.InnerBlocking = o2 !! Option.InnerBlocking ->
  o1 !! Option.MaxPanelThreads = o2 !! Option.MaxPanelThreads ->
  gbsv_target target A pv B o1 = gbsv_target target A pv B o2.
Proof.
  intros Hla Hib Hmt. unfold gbsv_target.
  by rewrite (opt_lookahead_ext o1 o2), (opt_ib_ext o1 o2),
    (opt_max_panel_threads_gbsv_ext o1 o2).
Qed.

(** X4. [Target::Host] is an alias of [Target::HostTask] for [gbsv] too, and
    a missing target option selects the same. *)
Theorem gbsv_Host_is_HostTask (A : BandMatrix) (pv : Pivots) (B : Matrix)
    (opts : Options) :
  gbsv A pv B
    (<[Option.Target := mkValue (Target_code Target.Host)]> opts)
  = gbsv A pv B (delete Option.Target opts)
  /\ gbsv A pv B
       (<[Option.Target := mkValue (Target_code Target.HostTask)]> opts)
     = gbsv A pv B (delete Option.Target opts).
Proof.
  unfold gbsv.
  rewrite opt_target_Host, opt_target_HostTask, opt_target_delete.
  split; f_equal; apply gbsv_target_ext;
    by rewrite lookup_insert_ne, lookup_delete_ne.
Qed.


(** X6. With assertions, [gbsv<target>] returns exactly when each of the
    options lookahead, inner blocking and panel threads is missing or
    non-negative; otherwise it is aborted before the factorization. *)
Theorem gbsv_target_returns_iff (target : Target.t) (A : BandMatrix)
    (pv : Pivots) (B : Matrix) (opts : Options) :
  NDEBUG = false ->
  (exists r, gbsv_target target A pv B opts = Ok r)
  <-> (forall key v,
         key <> Option.Target -> opts !! key = Some v -> 0 <= i_ v).
Proof.
  intros Hnd. unfold gbsv_target, opt_lookahead, opt_ib,
    opt_max_panel_threads_gbsv, assert. rewrite Hnd. simpl. split.
  - intros [r Hr] key v Hkey Hv.
    destruct (opts !! Option.Lookahead) as [vl|] eqn:El; simpl in Hr;
      [destruct (Z.leb_spec 0 (i_ vl)); simpl in Hr; [|done]|];
      (destruct (opts !! Option.InnerBlocking) as [vi|] eqn:Ei;
       simpl in Hr;
       [destruct (Z.leb_spec 0 (i_ vi)); simpl in Hr; [|done]|]);
      (destruct (opts !! Option.MaxPanelThreads) as [vm|] eqn:Em;
       simpl in Hr;
       [destruct (Z.leb_spec 0 (i_ vm)); simpl in Hr; [|done]|]);
      destruct key; simplify_eq; done.
  - intros Hall.
    destruct (opts !! Option.Lookahead) as [vl|] eqn:El; simpl;
      [rewrite (proj2 (Z.leb_le 0 (i_ vl)))
         by (by apply (Hall Option.Lookahead vl ltac:(done) El))|];
      simpl;
      (destruct (opts !! Option.InnerBlocking) as [vi|] eqn:Ei; simpl;
       [rewrite (proj2 (Z.leb_le 0 (i_ vi)))
          by (by apply (Hall Option.InnerBlocking vi ltac:(done) Ei))|]);
      simpl;
      (destruct (opts !! Option.MaxPanelThreads) as [vm|] eqn:Em; simpl;
       [rewrite (proj2 (Z.leb_le 0 (i_ vm)))
          by (by apply (Hall Option.MaxPanelThreads vm ltac:(done) Em))|]);
      simpl; by eexists.
Qed.

(** X7. The number of panel threads is an [int64_t] option and an [int]
    parameter of the specialization: [gbsv] does not tell apart two
    values that agree modulo 2^32. *)
Theorem gbsv_panel_threads_narrowed (A : BandMatrix) (pv : Pivots)
    (B : Matrix) (opts : Options) (v n : Z) :
  0 <= v -> 0 <= v + n * 2 ^ 32 ->
  gbsv A pv B (<[Option.MaxPanelThreads := mkValue (v + n * 2 ^ 32)]> opts)
  = gbsv A pv B (<[Option.MaxPanelThreads := mkValue v]> opts).
Proof.
  intros Hv Hn. unfold gbsv.
  rewrite !(opt_target_ext (<[Option.MaxPanelThreads := _]> opts) opts)
    by (by rewrite lookup_insert_ne).
  destruct (opt_target opts) as [target|]; [|done].
  unfold gbsv_target.
  rewrite !(opt_lookahead_ext (<[Option.MaxPanelThreads := _]> opts) opts)
    by (by rewrite lookup_insert_ne).
  rewrite !(opt_ib_ext (<[Option.MaxPanelThreads := _]> opts) opts)
    by (by rewrite lookup_insert_ne).
  unfold opt_max_panel_threads_gbsv. rewrite !lookup_insert_eq. simpl.
  unfold assert.
  replace (0 <=? v + n * 2 ^ 32) with true by lia.
  replace (0 <=? v) with true by lia.
  rewrite orb_true_r. simpl.
  assert (to_int (v + n * 2 ^ 32) = to_int v) as ->; [|done].
  unfold to_int. f_equal.
  replace (v + n * 2 ^ 32 + 2 ^ 31) with (v + 2 ^ 31 + n * 2 ^ 32) by lia.
  by rewrite Z_mod_plus_full.
Qed.
End gbsv_options.

(** ** The calls of getrf_ca: regions, counts and tags *)

Ltac seqZ_hyps :=
  repeat match goal with
  | H : _ ∈ seqZ _ _ |- _ => apply elem_of_seqZ in H
  end.

Ltac in_sub_bounds H :=
  unfold in_sub in H; simpl in H;
  repeat (let H' := fresh in apply andb_prop in H as [H H']);
  unfold min_mt_nt, A_mt, A_nt in *; simpl; lia.

Section counting.
Lemma count_calls_app P cs1 cs2 :
  count_calls P (cs1 ++ cs2) = (count_calls P cs1 + count_calls P cs2)%nat.
Proof. unfold count_calls. by rewrite List.filter_app, length_app. Qed.

Lemma count_calls_bind_cons {X} P (f : X -> list call) x l :
  count_calls P (y ← x :: l; f y)
  = (count_calls P (f x) + count_calls P (y ← l; f y))%nat.
Proof. simpl. apply count_calls_app. Qed.

Lemma count_calls_none P cs :
  (forall c, c ∈ cs -> P c = false) -> count_calls P cs = 0%nat.
Proof.
  unfold count_calls. induction cs as [|c cs IH]; intros HP; [done|].
  simpl. rewrite HP by left. apply IH. intros c' Hc'. apply HP. by right.
Qed.

Lemma count_calls_bind_none {X} P (f : X -> list call) (l : list X) :
  (forall x c, x ∈ l -> c ∈ f x -> P c = false) ->
  count_calls P (x ← l; f x) = 0%nat.
Proof.
  intros HP. apply count_calls_none. intros c Hc.
  apply list_elem_of_bind in Hc as (x & Hc & Hx). by apply (HP x).
Qed.
End counting.

Section schedule_regions.
Context (target : Target.t) (D : MatrixDesc).
Context (ib max_panel_threads lookahead : Z).

Local Abbreviation calls :=
  (getrf_ca_calls target D ib max_panel_threads lookahead).
Local Abbreviation step :=
  (getrf_ca_step target D ib max_panel_threads lookahead).
Local Abbreviation before :=
  (calls_before target D ib max_panel_threads lookahead).
Local Abbreviation after :=
  (calls_after target D ib max_panel_threads lookahead).

(** X8. The driver stays inside the matrix: every view it hands to a routine,
    every tile it broadcasts and every destination of a broadcast lies
    within the [mt]-by-[nt] grid of tiles. *)
Theorem getrf_ca_views_in_grid (c : call) (V : Sub) (ij : Z * Z) :
  0 <= lookahead ->
  c ∈ getrf_ca_calls target D ib max_panel_threads lookahead ->
  V ∈ call_views c -> in_sub V ij = true ->
  0 <= ij.1 < mt D /\ 0 <= ij.2 < nt D.
Proof.
  intros Hla Hc HV Hin. unfold_calls Hc.
  in_calls Hc; subst c; simpl in HV; seqZ_hyps;
    try (in_calls HV; subst V; in_sub_bounds Hin).
  - apply list_elem_of_bind in HV as (e & HV & He).
    apply list_elem_of_fmap in He as (i & -> & Hi). seqZ_hyps.
    simpl in HV. in_calls HV; subst V; in_sub_bounds Hin.
  - apply list_elem_of_bind in HV as (e & HV & He).
    apply list_elem_of_fmap in He as (j & -> & Hj). seqZ_hyps.
    simpl in HV. in_calls HV; subst V; in_sub_bounds Hin.
Qed.

(** X9. Calls of the device path are issued on the device target only, and
    the held panel tiles are released only when the lookahead is
    positive, that is when they were broadcast in shared mode. *)
Theorem device_calls_on_devices_only (c : call) :
  c ∈ getrf_ca_calls target D ib max_panel_threads lookahead ->
  device_call c = true ->
  target = Target.Devices
  /\ (forall k, c = ReleasePanel k -> 0 < lookahead).
Proof.
  intros Hc Hd. unfold_calls Hc. unfold is_shared in Hc.
  repeat match type of Hc with
  | context [decide (target = Target.Devices)] =>
      destruct (decide (target = Target.Devices))
  | context [0 <? lookahead] => destruct (Z.ltb_spec 0 lookahead)
  end;
    in_calls Hc; subst c; try done; split; try done; intros k' [=]; done.
Qed.

(** The block updates of one lookahead loop: one per column. *)
Lemma count_gemm_lookahead_loop k (n : nat) : forall a,
  count_calls is_gemm (j ← seqZ a (Z.of_nat n); lookahead_task target D k j)
  = n.
Proof.
  induction n as [|n IH]; intros a; [done|].
  rewrite seqZ_cons by lia. rewrite count_calls_bind_cons.
  replace (Z.pred (Z.of_nat (S n))) with (Z.of_nat n) by lia.
  rewrite IH. reflexivity.
Qed.

(** X10. Step [k] issues [min(lookahead + 1, nt - k - 1)] block updates: one
    for each lookahead column and one for the trailing submatrix when
    columns remain.  With lookahead 0 there is the trailing update only;
    with a lookahead of [nt - 1] or more every column has its own. *)
Theorem count_gemm_step (k : Z) :
  0 <= lookahead -> 0 <= k < nt D ->
  count_calls is_gemm
    (getrf_ca_step target D ib max_panel_threads lookahead k)
  = Z.to_nat (Z.min (lookahead + 1) (nt D - k - 1)).
Proof.
  intros Hla Hk. unfold getrf_ca_step.
  rewrite !count_calls_app. unfold A_nt.
  assert (count_calls is_gemm (release_tasks target lookahead k) = 0%nat)
    as ->.
  { unfold release_tasks. destruct (decide _); [|done].
    by destruct (is_shared lookahead). }
  change (count_calls is_gemm
            [PivotResize k (Z.min (tileMb D k) (tileNb D k));
             InsertLocalTiles (sub k (A_mt D - 1) k k)]) with 0%nat.
  change (count_calls is_gemm (panel_task target D ib max_panel_threads k
            (Z.min (tileMb D k) (tileNb D k)) (sub k (A_mt D - 1) k k)))
    with 0%nat.
  change (count_calls is_gemm (panel_trsm_task target D lookahead k))
    with 0%nat.
  replace (Z.min (k + 1 + lookahead) (nt D) - (k + 1))
    with (Z.of_nat (Z.to_nat (Z.min lookahead (nt D - k - 1)))) by lia.
  rewrite count_gemm_lookahead_loop.
  destruct (Z.ltb_spec (k + 1 + lookahead) (nt D)).
  - change (count_calls is_gemm (trailing_task target D lookahead k))
      with 1%nat. lia.
  - change (count_calls is_gemm []) with 0%nat. lia.
Qed.

(** The interchanges of panel [k] on column [j] in one lookahead loop. *)
Lemma count_permutes_lookahead_loop k j (n : nat) : forall a,
  count_calls (permutes k j)
    (j' ← seqZ a (Z.of_nat n); lookahead_task target D k j')
  = if (a <=? j) && (j <? a + Z.of_nat n) then 1%nat else 0%nat.
Proof.
  induction n as [|n IH]; intros a.
  - destruct (Z.leb_spec a j), (Z.ltb_spec j (a + Z.of_nat 0)); simpl;
      done || lia.
  - rewrite seqZ_cons by lia. rewrite count_calls_bind_cons.
    replace (Z.pred (Z.of_nat (S n))) with (Z.of_nat n) by lia.
    rewrite IH. unfold lookahead_task, count_calls. simpl.
    rewrite bool_decide_eq_true_2 by done. simpl.
    destruct (Z.leb_spec a j), (Z.leb_spec j a), (Z.leb_spec (Z.succ a) j),
      (Z.ltb_spec j (Z.succ a + Z.of_nat n)),
      (Z.ltb_spec j (a + Z.of_nat (S n)));
      simpl; lia.
Qed.

(** To the left of the panels, the interchanges of panel [k]. *)
Lemma count_permutes_pivot_left k j :
  0 <= k < min_mt_nt D ->
  count_calls (permutes k j) (k' ← seqZ 0 (min_mt_nt D); pivot_left D k')
  = if (0 <=? j) && (j <? k) then 1%nat else 0%nat.
Proof.
  intros Hk. rewrite (seqZ_split (min_mt_nt D) k) by done.
  rewrite bind_app, bind_cons, !count_calls_app.
  rewrite !count_calls_bind_none.
  - unfold pivot_left, count_calls.
    destruct (Z.ltb_spec 0 k); simpl.
    + rewrite bool_decide_eq_true_2 by done. simpl.
      destruct (Z.leb_spec 0 j), (Z.leb_spec j (k - 1)), (Z.ltb_spec j k);
        simpl; lia.
    + destruct (Z.leb_spec 0 j), (Z.ltb_spec j k); simpl; lia.
  - intros k' c Hk' Hc. seqZ_hyps. unfold pivot_left in Hc.
    in_calls Hc; subst c. simpl.
    rewrite bool_decide_eq_false_2 by lia. done.
  - intros k' c Hk' Hc. seqZ_hyps. unfold pivot_left in Hc.
    in_calls Hc; subst c. simpl.
    rewrite bool_decide_eq_false_2 by lia. done.
Qed.

Lemma permutes_applies k j c :
  permutes k j c = true -> applies_pivots k c = true.
Proof.
  destruct c; simpl; try done.
  intros Hc. by repeat (apply andb_prop in Hc as [Hc _]).
Qed.

(** X11. The pivots of every panel are applied to every block column exactly
    once: to the panel itself after the broadcast, to each column right of
    it in its lookahead task or in the trailing task, and to each column
    left of it in the final loop. *)
Theorem pivots_applied_exactly_once (k j : Z) :
  0 <= lookahead ->
  0 <= k < Z.min (mt D) (nt D) -> 0 <= j < nt D ->
  count_calls (permutes k j)
    (getrf_ca_calls target D ib max_panel_threads lookahead)
  = 1%nat.
Proof.
  intros Hla Hk Hj.
  rewrite (getrf_ca_calls_split target D ib max_panel_threads lookahead k)
    by done.
  rewrite !count_calls_app.
  assert (count_calls (permutes k j) (before k) = 0%nat) as ->.
  { apply count_calls_none. intros c Hc.
    destruct (permutes k j c) eqn:E; [|done].
    apply permutes_applies in E.
    unfold calls_before in Hc. rewrite app_assoc in Hc.
    apply elem_of_app in Hc as [Hc|Hc].
    - in_calls Hc; subst; done.
    - apply list_elem_of_bind in Hc as (k' & Hc & Hk'). seqZ_hyps.
      apply (step_applies_pivots _ _ _ _ _ _ _ _ Hc) in E. lia. }
  unfold calls_after. rewrite !count_calls_app.
  rewrite (count_calls_bind_none _ _ (seqZ (k + 1) _)).
  2:{ intros k' c Hk' Hc. seqZ_hyps.
      destruct (permutes k j c) eqn:E; [|done].
      apply permutes_applies in E.
      apply (step_applies_pivots _ _ _ _ _ _ _ _ Hc) in E. lia. }
  rewrite count_permutes_pivot_left by done.
  change (count_calls (permutes k j) [TileUpdateAllOrigin]) with 0%nat.
  change (count_calls (permutes k j) [ClearWorkspace]) with 0%nat.
  unfold getrf_ca_step. rewrite !count_calls_app. unfold A_nt.
  assert (count_calls (permutes k j) (release_tasks target lookahead k)
          = 0%nat) as ->.
  { unfold release_tasks. destruct (decide _); [|done].
    by destruct (is_shared lookahead). }
  change (count_calls (permutes k j)
            [PivotResize k (Z.min (tileMb D k) (tileNb D k));
             InsertLocalTiles (sub k (A_mt D - 1) k k)]) with 0%nat.
  change (count_calls (permutes k j) (panel_trsm_task target D lookahead k))
    with 0%nat.
  replace (Z.min (k + 1 + lookahead) (nt D) - (k + 1))
    with (Z.of_nat (Z.to_nat (Z.min lookahead (nt D - k - 1)))) by lia.
  rewrite count_permutes_lookahead_loop.
  assert (count_calls (permutes k j)
            (panel_task target D ib max_panel_threads k
               (Z.min (tileMb D k) (tileNb D k)) (sub k (A_mt D - 1) k k))
          = if j =? k then 1%nat else 0%nat) as ->.
  { unfold panel_task, count_calls. simpl.
    rewrite bool_decide_eq_true_2 by done. simpl.
    destruct (Z.leb_spec k j), (Z.leb_spec j k), (Z.eqb_spec j k);
      simpl; lia. }
  assert (count_calls (permutes k j)
            (if k + 1 + lookahead <? nt D
             then trailing_task target D lookahead k else [])
          = if (k + 1 + lookahead <=? j) then 1%nat else 0%nat) as ->.
  { destruct (Z.ltb_spec (k + 1 + lookahead) (nt D)).
    - unfold trailing_task, count_calls. simpl.
      rewrite bool_decide_eq_true_2 by done. simpl. unfold A_nt.
      destruct (Z.leb_spec (k + 1 + lookahead) j),
        (Z.leb_spec j (nt D - 1)); simpl; lia.
    - destruct (Z.leb_spec (k + 1 + lookahead) j); [lia|done]. }
  destruct (Z.eqb_spec j k), (Z.leb_spec (k + 1) j),
    (Z.ltb_spec j
       (k + 1 + Z.of_nat (Z.to_nat (Z.min lookahead (nt D - k - 1))))),
    (Z.leb_spec (k + 1 + lookahead) j), (Z.leb_spec 0 j), (Z.ltb_spec j k);
    simpl; lia.
Qed.

(** X12. Within one step no two entries of the list broadcasts share a tag:
    the tags of the panel tiles and of the tiles of the trailing row are
    pairwise distinct. *)
Theorem list_bcast_tags_distinct (k : Z) :
  0 <= k -> 0 <= lookahead ->
  NoDup (bc_tag <$> (panel_bcast_list D k
                     ++ trailing_bcast_list D lookahead k)).
Proof.
  intros Hk Hla. rewrite fmap_app. apply NoDup_app. split; [|split].
  - unfold panel_bcast_list. rewrite <- list_fmap_compose.
    apply NoDup_fmap_2_strong; [|apply NoDup_seqZ].
    intros x y _ _. simpl. done.
  - intros tag (e1 & -> & He1)%list_elem_of_fmap
      (e2 & Htag & He2)%list_elem_of_fmap.
    apply elem_of_panel_bcast_list in He1.
    apply elem_of_trailing_bcast_list in He2. lia.
  - unfold trailing_bcast_list. rewrite <- list_fmap_compose.
    apply NoDup_fmap_2_strong; [|apply NoDup_seqZ].
    intros x y _ _. simpl. lia.
Qed.
End schedule_regions.

(** ** What getrf_ca leaves alone *)

Ltac not_in_sub :=
  apply not_true_is_false;
  let Hin := fresh in intros Hin; in_sub_bounds Hin.

Section frame.
Context `{Kernels}.

(** A call changes only the tiles it writes. *)
Lemma exec_frame c s (ij : Z * Z) :
  writes c ij = false -> mat_A (exec c s) !! ij = mat_A s !! ij.
Proof.
  intros Hc. destruct c; simpl in *; try done.
  - destruct (panel_getrf_ca _ _ _ _) as [[a w] p]. simpl.
    rewrite region_update_lookup, Hc. by destruct (mat_A s !! ij).
  - rewrite region_update_lookup, Hc. by destruct (mat_A s !! ij).
  - rewrite region_update_lookup, Hc. by destruct (mat_A s !! ij).
  - rewrite region_update_lookup, Hc. by destruct (mat_A s !! ij).
  - rewrite region_update_lookup, Hc. by destruct (mat_A s !! ij).
Qed.

Lemma run_frame cs (ij : Z * Z) : forall s,
  Forall (fun c => writes c ij = false) cs ->
  mat_A (run cs s) !! ij = mat_A s !! ij.
Proof.
  induction cs as [|c cs IH]; intros s Hcs; [done|].
  apply Forall_cons in Hcs as [Hc Hcs].
  by rewrite run_cons, IH, exec_frame.
Qed.

Context (target : Target.t) (D : MatrixDesc).
Context (ib max_panel_threads lookahead : Z).

Local Abbreviation calls :=
  (getrf_ca_calls target D ib max_panel_threads lookahead).
Local Abbreviation step :=
  (getrf_ca_step target D ib max_panel_threads lookahead).
Local Abbreviation before :=
  (calls_before target D ib max_panel_threads lookahead).
Local Abbreviation after :=
  (calls_after target D ib max_panel_threads lookahead).

Lemma step_writes k c (ij : Z * Z) :
  0 <= lookahead -> c ∈ step k -> writes c ij = true ->
  k <= ij.1 /\ k <= ij.2.
Proof.
  intros Hla Hc Hw. unfold_calls Hc.
  in_calls Hc; subst c; simpl in Hw; seqZ_hyps; try done;
    in_sub_bounds Hw.
Qed.

(** X13. The factorization is right-looking: step [k] changes no tile above
    block row [k] or left of block column [k]. *)
Theorem step_leaves_finished_part (k i j : Z) (s : state) :
  0 <= lookahead -> i < k \/ j < k ->
  mat_A (run (getrf_ca_step target D ib max_panel_threads lookahead k) s)
    !! (i, j)
  = mat_A s !! (i, j).
Proof.
  intros Hla Hij. apply run_frame. apply Forall_forall. intros c Hc.
  destruct (writes c (i, j)) eqn:E; [|done].
  apply (step_writes k c (i, j) Hla Hc) in E. simpl in E. lia.
Qed.

(** X14. Block row [k] of the factor U is final when step [k] ends: neither
    the later steps nor the interchanges to the left of the panels change
    a tile [(k, j)] with [j >= k]. *)
Theorem U_row_final (A : gmap (Z * Z) tile) (pv : Pivots) (k j : Z) :
  0 <= lookahead -> 0 <= k < Z.min (mt D) (nt D) -> k <= j ->
  (specialization_getrf_ca target D ib max_panel_threads lookahead A pv).1
    !! (k, j)
  = mat_A (run (calls_before target D ib max_panel_threads lookahead k
                ++ getrf_ca_step target D ib max_panel_threads lookahead k)
             (mkState A pv ∅)) !! (k, j).
Proof.
  intros Hla Hk Hj. unfold specialization_getrf_ca. simpl.
  rewrite (getrf_ca_calls_split target D ib max_panel_threads lookahead k)
    by done.
  rewrite app_assoc, run_app. apply run_frame.
  apply Forall_forall. intros c Hc.
  destruct (writes c (k, j)) eqn:E; [|done].
  unfold calls_after in Hc. apply elem_of_app in Hc as [Hc|Hc].
  - apply list_elem_of_bind in Hc as (k' & Hc & Hk'). seqZ_hyps.
    apply (step_writes k' c (k, j) Hla Hc) in E. simpl in E. lia.
  - unfold pivot_left in Hc. in_calls Hc; subst c; simpl in E;
      seqZ_hyps; try done. in_sub_bounds E.
Qed.

(** X15. Below the diagonal, block column [k] of the factor L is complete
    when step [k] ends but for the order of its rows: later on its tiles
    are written by the interchanges of later panels only. *)
Theorem L_column_only_permuted (c : call) (k i : Z) :
  0 <= lookahead -> 0 <= k < Z.min (mt D) (nt D) ->
  c ∈ calls_after target D ib max_panel_threads lookahead k ->
  writes c (i, k) = true ->
  exists k', k < k' /\ applies_pivots k' c = true.
Proof.
  intros Hla Hk Hc Hw.
  unfold calls_after in Hc. apply elem_of_app in Hc as [Hc|Hc].
  - apply list_elem_of_bind in Hc as (k' & Hc & Hk'). seqZ_hyps.
    apply (step_writes k' c (i, k) Hla Hc) in Hw. simpl in Hw. lia.
  - unfold pivot_left in Hc. in_calls Hc; subst c; simpl in Hw;
      seqZ_hyps; try done.
    match goal with
    | |- context [PermuteRows _ _ ?k' _ _] => exists k'
    end.
    split; [in_sub_bounds Hw|]. simpl. by apply bool_decide_eq_true.
Qed.

(** X16. When [getrf_ca] returns, the panel workspace holds no tile. *)
Theorem workspace_empty_at_exit (s : state) :
  Awork (run (getrf_ca_calls target D ib max_panel_threads lookahead) s)
  = ∅.
Proof.
  unfold getrf_ca_calls. rewrite !run_app.
  do 3 (apply run_Awork_empty;
        [apply Forall_forall; intros c Hc V ->; unfold pivot_left in Hc;
         in_calls Hc; done|]).
  apply steps_Awork_empty. rewrite !run_cons, run_nil. done.
Qed.

(** X17. A matrix without tiles: the pivot table is emptied and the matrix is
    left as it is. *)
Theorem getrf_ca_empty_matrix (A : gmap (Z * Z) tile) (pv : Pivots) :
  Z.min (mt D) (nt D) = 0 ->
  specialization_getrf_ca target D ib max_panel_threads lookahead A pv
  = (A, []).
Proof.
  intros Hmin. unfold specialization_getrf_ca, getrf_ca_calls, min_mt_nt.
  rewrite Hmin. simpl.
  destruct (decide (target = Target.Devices)); simpl; f_equal;
    apply resize_0.
Qed.
End frame.

(** * The triangular solve *)

Section trsm_run_facts.
Context `{TrsmKernels}.
Context (A : TriangularMatrix).

Lemma trsm_run_nil B : trsm_run A [] B = B.
Proof. reflexivity. Qed.

Lemma trsm_run_cons c cs B :
  trsm_run A (c :: cs) B = trsm_run A cs (trsm_exec A c B).
Proof. reflexivity. Qed.

Lemma trsm_run_app cs1 cs2 B :
  trsm_run A (cs1 ++ cs2) B = trsm_run A cs2 (trsm_run A cs1 B).
Proof. apply foldl_app. Qed.

Lemma trsm_run_bind_cons {X} (f : X -> list trsm_call) x l B :
  trsm_run A (y ← x :: l; f y) B
  = trsm_run A (y ← l; f y) (trsm_run A (f x) B).
Proof. simpl. apply trsm_run_app. Qed.

Lemma trsm_run_bind_ext {X} (f g : X -> list trsm_call) (l : list X) :
  (forall x B, x ∈ l -> trsm_run A (f x) B = trsm_run A (g x) B) ->
  forall B, trsm_run A (x ← l; f x) B = trsm_run A (x ← l; g x) B.
Proof.
  induction l as [|x l IH]; intros Hfg B; [reflexivity|].
  rewrite !trsm_run_bind_cons, Hfg by left.
  apply IH. intros y B' Hy. apply Hfg. by right.
Qed.

(** Calls that move no data leave the matrix as it is. *)
Lemma trsm_run_quiet cs B :
  Forall (fun c => forall B', trsm_exec A c B' = B') cs ->
  trsm_run A cs B = B.
Proof.
  intros Hcs. revert B.
  induction Hcs as [|c cs Hc _ IH]; intros B; [done|].
  by rewrite trsm_run_cons, Hc.
Qed.

Lemma trsm_row_update_lookup nt k alph P B (ij : Z * Z) :
  trsm_row_update A nt k alph P B !! ij
  = (fun c => if P ij.1 && (0 <=? ij.2) && (ij.2 <=? nt-1)
              then gemm_tile Target.HostTask scalar_minus_one
                     (tri_tile A (ij.1, k)) (B !!! (k, ij.2)) alph c
              else c) <$> B !! ij.
Proof. unfold trsm_row_update. by rewrite region_update_lookup. Qed.

Lemma trsm_row_update_ext nt k alph P1 P2 B :
  (forall i, P1 i = P2 i) ->
  trsm_row_update A nt k alph P1 B = trsm_row_update A nt k alph P2 B.
Proof.
  intros HP. apply map_eq. intros ij.
  by rewrite !trsm_row_update_lookup, HP.
Qed.

Lemma trsm_row_update_none nt k alph P B :
  (forall i, P i = false) -> trsm_row_update A nt k alph P B = B.
Proof.
  intros HP. apply region_update_none. intros ij. by rewrite HP.
Qed.

(** Two updates of disjoint block rows, none of them row [k], are one
    update of both. *)
Lemma trsm_row_update_merge nt k alph P1 P2 B :
  P1 k = false ->
  (forall i, P1 i && P2 i = false) ->
  trsm_row_update A nt k alph P2 (trsm_row_update A nt k alph P1 B)
  = trsm_row_update A nt k alph (fun i => P1 i || P2 i) B.
Proof.
  intros Hk Hdisj. apply map_eq. intros [i j].
  rewrite !trsm_row_update_lookup. simpl.
  assert (trsm_row_update A nt k alph P1 B !!! (k, j) = B !!! (k, j))
    as ->.
  { apply region_update_lookup_total_out. simpl. by rewrite Hk. }
  destruct (B !! (i, j)) as [c|]; simpl; [f_equal|done].
  specialize (Hdisj i).
  destruct (P1 i), (P2 i); simpl in *; done.
Qed.

Lemma exec_A_tileBcast t i j d B : trsm_exec A (A_tileBcast t i j d) B = B.
Proof. reflexivity. Qed.
End trsm_run_facts.

Ltac zbools :=
  intros; cbv beta;
  repeat match goal with
  | |- context [(?a <=? ?b)] => destruct (Z.leb_spec a b)
  | |- context [(?a <? ?b)] => destruct (Z.ltb_spec a b)
  | |- context [(?a =? ?b)] => destruct (Z.eqb_spec a b)
  end; simpl in *; try done; try lia.

Ltac trsm_in_calls H :=
  repeat match type of H with
  | _ ∈ _ ++ _ => apply elem_of_app in H as [H|H]
  | _ ∈ _ :: _ => apply elem_of_cons in H as [H|H]
  | _ ∈ [] => by apply elem_of_nil in H
  | _ ∈ (_ ≫= _) => apply list_elem_of_bind in H as (? & H & ?)
  | _ ∈ (if ?b then _ else _) => destruct b
  end.

Section trsm_steps.
Context `{TrsmKernels}.
Context (target : Target.t) (diag : Diag) (alpha : scalar_t).
Context (A : TriangularMatrix) (mt nt lookahead : Z).
Context (Hla : 0 <= lookahead).
Context (Hgemm : forall al x y be c,
  gemm_tile target al x y be c = gemm_tile Target.HostTask al x y be c).

(** An update of the block rows [a..b] with panel [k]. *)
Lemma exec_gemm_rows t a b k alph p B :
  t = target \/ t = Target.HostTask ->
  trsm_exec A
    (internal_gemm t scalar_minus_one (sub a b k k) (sub k k 0 (nt-1))
       alph (sub a b 0 (nt-1)) p) B
  = trsm_row_update A nt k alph (fun i => (a <=? i) && (i <=? b)) B.
Proof.
  intros Ht. apply map_eq. intros [i j].
  rewrite trsm_row_update_lookup. simpl.
  rewrite region_update_lookup. unfold in_sub. simpl.
  destruct (B !! (i, j)) as [c|]; simpl; [f_equal|done].
  destruct ((a <=? i) && (i <=? b) && (0 <=? j) && (j <=? nt - 1));
    [|done].
  replace (a + (i - a)) with i by lia.
  replace (0 + (j - 0)) with j by lia.
  destruct Ht as [-> | ->]; [apply Hgemm|done].
Qed.

Lemma panel_task_run k alph rows a b B :
  trsm_run A (trsm_panel_task target diag nt k alph rows a b) B
  = trsm_row_solve A diag nt k alph B.
Proof.
  unfold trsm_panel_task. rewrite trsm_run_app.
  rewrite trsm_run_quiet; [reflexivity|].
  apply Forall_forall. intros c Hc. trsm_in_calls Hc; by subst.
Qed.

(** The lookahead rows [a..a+n-1], taken upwards. *)
Lemma lookahead_rows_up k alph (n : nat) : forall a B,
  k < a ->
  trsm_run A (i ← seqZ a (Z.of_nat n); trsm_lookahead_task nt k alph i) B
  = trsm_row_update A nt k alph
      (fun i => (a <=? i) && (i <? a + Z.of_nat n)) B.
Proof.
  induction n as [|n IH]; intros a B Hk.
  - rewrite trsm_row_update_none; [done|]. zbools.
  - rewrite seqZ_cons by lia. rewrite trsm_run_bind_cons.
    replace (Z.pred (Z.of_nat (S n))) with (Z.of_nat n) by lia.
    rewrite IH by lia. unfold trsm_lookahead_task.
    rewrite trsm_run_cons, trsm_run_nil, exec_gemm_rows by auto.
    rewrite trsm_row_update_merge by zbools.
    apply trsm_row_update_ext. zbools.
Qed.

(** The lookahead rows [a..a+n-1], taken downwards. *)
Lemma lookahead_rows_down k alph (n : nat) : forall a B,
  a + Z.of_nat n <= k ->
  trsm_run A
    (i ← reverse (seqZ a (Z.of_nat n)); trsm_lookahead_task nt k alph i) B
  = trsm_row_update A nt k alph
      (fun i => (a <=? i) && (i <? a + Z.of_nat n)) B.
Proof.
  induction n as [|n IH]; intros a B Hk.
  - rewrite trsm_row_update_none; [done|]. zbools.
  - replace (Z.of_nat (S n)) with (Z.of_nat n + 1) by lia.
    rewrite seqZ_app by lia. rewrite reverse_app.
    change (seqZ (a + Z.of_nat n) 1) with [a + Z.of_nat n].
    change (reverse [a + Z.of_nat n]) with [a + Z.of_nat n].
    simpl app. rewrite trsm_run_bind_cons.
    rewrite IH by lia. unfold trsm_lookahead_task.
    rewrite trsm_run_cons, trsm_run_nil, exec_gemm_rows by auto.
    rewrite trsm_row_update_merge by zbools.
    apply trsm_row_update_ext. zbools.
Qed.

(** A step of the forward sweep solves block row [k] and updates all
    the block rows below it. *)
Lemma forward_step_run k B :
  0 <= k ->
  trsm_run A (forward_step target diag alpha mt nt lookahead k) B
  = trsm_row_update A nt k (forward_alph alpha k)
      (fun i => (k+1 <=? i) && (i <=? mt-1))
      (trsm_row_solve A diag nt k (forward_alph alpha k) B).
Proof.
  intros Hk. unfold forward_step.
  rewrite !trsm_run_app, panel_task_run.
  set (B' := trsm_row_solve _ _ _ _ _ _).
  set (alph := forward_alph alpha k).
  destruct (Z.le_gt_cases (k + 1) (Z.min (k + 1 + lookahead) mt)) as [Hn|Hn].
  - rewrite <- (Z2Nat.id (Z.min _ _ - (k + 1))) by lia.
    rewrite lookahead_rows_up by lia.
    destruct (Z.ltb_spec (k + 1 + lookahead) mt).
    + unfold trsm_trailing_task.
      rewrite trsm_run_cons, trsm_run_nil, exec_gemm_rows by auto.
      rewrite trsm_row_update_merge by zbools.
      apply trsm_row_update_ext. zbools.
    + rewrite trsm_run_nil. apply trsm_row_update_ext. zbools.
  - rewrite seqZ_nil by lia. simpl mbind. rewrite trsm_run_nil.
    destruct (Z.ltb_spec (k + 1 + lookahead) mt); [lia|].
    rewrite trsm_run_nil. symmetry. apply trsm_row_update_none.
    zbools.
Qed.

(** A step of the backward sweep solves block row [k] and updates all
    the block rows above it. *)
Lemma backward_step_run k B :
  0 <= k ->
  trsm_run A (backward_step target diag alpha mt nt lookahead k) B
  = trsm_row_update A nt k (backward_alph alpha mt k)
      (fun i => (0 <=? i) && (i <=? k-1))
      (trsm_row_solve A diag nt k (backward_alph alpha mt k) B).
Proof.
  intros Hk. unfold backward_step.
  rewrite !trsm_run_app, panel_task_run.
  set (B' := trsm_row_solve _ _ _ _ _ _).
  set (alph := backward_alph alpha mt k).
  set (lo := Z.max (k - lookahead) 0).
  rewrite <- (Z2Nat.id (k - lo)) by lia.
  rewrite lookahead_rows_down by lia.
  destruct (Z.leb_spec 0 (k - 1 - lookahead)).
  - unfold trsm_trailing_task.
    rewrite trsm_run_cons, trsm_run_nil, exec_gemm_rows by auto.
    rewrite trsm_row_update_merge by zbools.
    apply trsm_row_update_ext. zbools.
  - rewrite trsm_run_nil. apply trsm_row_update_ext. zbools.
Qed.
End trsm_steps.

Section trsm_lookahead.
Context `{Env} `{TrsmKernels}.

(** X18. The lookahead of the triangular solve changes the grouping of the
    updates into tasks and nothing else: when the update kernel of the
    target computes what the host kernel computes, two lookaheads that
    are not negative give the same result, and the same outcome of the
    assertions. *)
Theorem trsm_lookahead_invariant (target : Target.t) (side : Side)
    (diag : Diag) (alpha : scalar_t) (A : TriangularMatrix)
    (B : GeneralMatrix) (la1 la2 : Z) :
  0 <= la1 -> 0 <= la2 ->
  (forall al x y be c,
     gemm_tile target al x y be c
     = gemm_tile Target.HostTask al x y be c) ->
  specialization_trsm target side diag alpha A B la1
  = specialization_trsm target side diag alpha A B la2.
Proof.
  intros Hla1 Hla2 Hgemm. unfold specialization_trsm.
  destruct (trsm_operands side alpha A B) as [[al A'] B'].
  destruct (assert (tri_mt A' =? gen_mt B')); simpl; [|done].
  destruct (assert (tri_nt A' =? gen_mt B')); simpl; [|done].
  f_equal. unfold trsm_calls. rewrite !trsm_run_app.
  f_equal. f_equal.
  destruct (tri_uplo_logical A').
  - apply trsm_run_bind_ext. intros k B0 Hk.
    assert (0 <= k).
    { apply elem_of_reverse, elem_of_seqZ in Hk. lia. }
    by rewrite !backward_step_run.
  - apply trsm_run_bind_ext. intros k B0 Hk.
    assert (0 <= k) by (apply elem_of_seqZ in Hk; lia).
    by rewrite !forward_step_run.
Qed.
End trsm_lookahead.

Section list_facts.
Context {X Y Z' : Type}.

Lemma omap_bind (f : Y -> option Z') (g : X -> list Y) (l : list X) :
  omap f (l ≫= g) = l ≫= (fun x => omap f (g x)).
Proof.
  induction l as [|x l IH]; [done|].
  by rewrite !bind_cons, omap_app, IH.
Qed.

Lemma bind_none (g : X -> list Y) (l : list X) :
  (forall x, x ∈ l -> g x = []) -> l ≫= g = [].
Proof.
  induction l as [|x l IH]; intros Hg; [done|].
  rewrite bind_cons, Hg by left. apply IH. intros y Hy. apply Hg. by right.
Qed.

Lemma bind_singletons (g : X -> list Y) (h : X -> Y) (l : list X) :
  (forall x, x ∈ l -> g x = [h x]) -> l ≫= g = h <$> l.
Proof.
  induction l as [|x l IH]; intros Hg; [done|].
  rewrite bind_cons, Hg, fmap_cons by left. simpl. f_equal.
  apply IH. intros y Hy. apply Hg. by right.
Qed.

Lemma omap_nil_elem (f : Y -> option Z') (l : list Y) (y : Y) :
  omap f l = [] -> y ∈ l -> f y = None.
Proof.
  induction l as [|x l IH]; intros Hl Hy; [by apply elem_of_nil in Hy|].
  simpl in Hl. destruct (f x) eqn:Hx; [done|].
  apply elem_of_cons in Hy as [->|Hy]; [done|]. by apply IH.
Qed.
End list_facts.

Section trsm_rows.
Context `{TrsmKernels}.
Context (target : Target.t) (diag : Diag) (alpha : scalar_t).
Context (mt nt lookahead : Z).

Lemma row_write_panel_task i k alph rows a b :
  omap (row_write i) (trsm_panel_task target diag nt k alph rows a b)
  = if i =? k then [(Solve, alph)] else [].
Proof.
  unfold trsm_panel_task. rewrite !omap_app, !omap_bind.
  rewrite !bind_none by done. rewrite app_nil_r. simpl.
  zbools.
Qed.

Lemma row_write_lookahead_up i k alph (n : nat) : forall a,
  omap (row_write i)
    (i' ← seqZ a (Z.of_nat n); trsm_lookahead_task nt k alph i')
  = if (a <=? i) && (i <? a + Z.of_nat n)
    then [(Update k, alph)] else [].
Proof.
  induction n as [|n IH]; intros a.
  - simpl. zbools.
  - rewrite seqZ_cons by lia. rewrite bind_cons, omap_app.
    replace (Z.pred (Z.of_nat (S n))) with (Z.of_nat n) by lia.
    rewrite IH. simpl. zbools.
Qed.

Lemma row_write_lookahead_down i k alph (n : nat) : forall a,
  omap (row_write i)
    (i' ← reverse (seqZ a (Z.of_nat n)); trsm_lookahead_task nt k alph i')
  = if (a <=? i) && (i <? a + Z.of_nat n)
    then [(Update k, alph)] else [].
Proof.
  induction n as [|n IH]; intros a.
  - simpl. zbools.
  - replace (Z.of_nat (S n)) with (Z.of_nat n + 1) by lia.
    rewrite seqZ_app by lia. rewrite reverse_app.
    change (seqZ (a + Z.of_nat n) 1) with [a + Z.of_nat n].
    change (reverse [a + Z.of_nat n]) with [a + Z.of_nat n].
    simpl app. rewrite bind_cons, omap_app.
    rewrite IH. simpl. zbools.
Qed.

(** What a step of the forward sweep does to block row [i]. *)
Lemma row_write_forward_step i k :
  0 <= lookahead -> 0 <= k -> 0 <= i < mt ->
  omap (row_write i) (forward_step target diag alpha mt nt lookahead k)
  = if i =? k then [(Solve, forward_alph alpha k)]
    else if k <? i then [(Update k, forward_alph alpha k)] else [].
Proof.
  intros Hla Hk Hi. unfold forward_step.
  rewrite !omap_app, row_write_panel_task.
  set (alph := forward_alph alpha k).
  destruct (Z.le_gt_cases (k + 1) (Z.min (k + 1 + lookahead) mt)) as [Hn|Hn].
  - rewrite <- (Z2Nat.id (Z.min _ _ - (k + 1))) by lia.
    rewrite row_write_lookahead_up.
    rewrite Z2Nat.id by lia.
    destruct (Z.ltb_spec (k + 1 + lookahead) mt); simpl; zbools.
  - rewrite seqZ_nil by lia.
    destruct (Z.ltb_spec (k + 1 + lookahead) mt); [lia|]. simpl. zbools.
Qed.

(** What a step of the backward sweep does to block row [i]. *)
Lemma row_write_backward_step i k :
  0 <= lookahead -> 0 <= k < mt -> 0 <= i ->
  omap (row_write i) (backward_step target diag alpha mt nt lookahead k)
  = if i =? k then [(Solve, backward_alph alpha mt k)]
    else if i <? k then [(Update k, backward_alph alpha mt k)] else [].
Proof.
  intros Hla Hk Hi. unfold backward_step.
  rewrite !omap_app, row_write_panel_task.
  set (alph := backward_alph alpha mt k).
  set (lo := Z.max (k - lookahead) 0).
  rewrite <- (Z2Nat.id (k - lo)) by lia.
  rewrite row_write_lookahead_down.
  rewrite Z2Nat.id by lia.
  destruct (Z.leb_spec 0 (k - 1 - lookahead)); simpl; zbools.
Qed.

(** X19. The forward sweep of the triangular solve gives block row [i] the
    updates of the panels 0 to [i-1], each once and in this order, and
    then solves it; nothing else writes the row, and [alpha] multiplies
    it once, in the first of these operations. *)
Theorem forward_sweep_row_history (i : Z) :
  0 <= lookahead -> 0 <= i < mt ->
  omap (row_write i) (forward_sweep target diag alpha mt nt lookahead)
  = ((fun k => (Update k, forward_alph alpha k)) <$> seqZ 0 i)
    ++ [(Solve, forward_alph alpha i)].
Proof.
  intros Hla Hi. unfold forward_sweep.
  rewrite omap_bind, (seqZ_split mt i) by done.
  rewrite bind_app, bind_cons.
  rewrite (bind_singletons _ (fun k => (Update k, forward_alph alpha k))).
  2:{ intros k Hk. apply elem_of_seqZ in Hk.
      rewrite row_write_forward_step by lia. zbools. }
  f_equal. rewrite row_write_forward_step, Z.eqb_refl by lia.
  rewrite bind_none; [done|].
  intros k Hk. apply elem_of_seqZ in Hk.
  rewrite row_write_forward_step by lia. zbools.
Qed.

(** X20. The backward sweep gives block row [i] the updates of the panels
    [mt-1] down to [i+1], each once and in this order, and then solves
    it; [alpha] multiplies the row once, in the first of these
    operations. *)
Theorem backward_sweep_row_history (i : Z) :
  0 <= lookahead -> 0 <= i < mt ->
  omap (row_write i) (backward_sweep target diag alpha mt nt lookahead)
  = ((fun k => (Update k, backward_alph alpha mt k))
       <$> reverse (seqZ (i + 1) (mt - (i + 1))))
    ++ [(Solve, backward_alph alpha mt i)].
Proof.
  intros Hla Hi. unfold backward_sweep.
  rewrite omap_bind, (seqZ_split mt i) by done.
  rewrite reverse_app, reverse_cons, <- app_assoc.
  rewrite bind_app.
  change ([i] ++ reverse (seqZ 0 i)) with (i :: reverse (seqZ 0 i)).
  rewrite bind_cons.
  rewrite (bind_singletons _
             (fun k => (Update k, backward_alph alpha mt k))).
  2:{ intros k Hk. apply elem_of_reverse, elem_of_seqZ in Hk.
      rewrite row_write_backward_step by lia. zbools. }
  f_equal. rewrite row_write_backward_step, Z.eqb_refl by lia.
  rewrite bind_none; [done|].
  intros k Hk. apply elem_of_reverse, elem_of_seqZ in Hk.
  rewrite row_write_backward_step by lia. zbools.
Qed.
End trsm_rows.

Section trsm_frame.
Context `{TrsmKernels}.
Context (A : TriangularMatrix).

(** A call changes only the block rows it writes. *)
Lemma trsm_exec_frame c B (i j : Z) :
  row_write i c = None -> trsm_exec A c B !! (i, j) = B !! (i, j).
Proof.
  intros Hc. destruct c; simpl in *; try done.
  - rewrite region_update_lookup. unfold in_sub. simpl.
    destruct ((i1 VB <=? i) && (i <=? i2 VB)); [done|].
    simpl. by destruct (B !! (i, j)).
  - rewrite region_update_lookup. unfold in_sub. simpl.
    destruct ((i1 VC <=? i) && (i <=? i2 VC)); [done|].
    simpl. by destruct (B !! (i, j)).
Qed.

Lemma trsm_run_frame cs B (i j : Z) :
  (forall c, c ∈ cs -> row_write i c = None) ->
  trsm_run A cs B !! (i, j) = B !! (i, j).
Proof.
  revert B. induction cs as [|c cs IH]; intros B Hcs; [done|].
  rewrite trsm_run_cons, IH by (intros; apply Hcs; by right).
  apply trsm_exec_frame, Hcs. by left.
Qed.

(** A sweep around the step of block row [k], when nothing after the
    panel task of that step writes the row. *)
Lemma sweep_row_solved target diag nt k alph rows a b
    (pre rest post : list trsm_call) B (j : Z) :
  0 <= j < nt ->
  omap (row_write k) rest = [] ->
  omap (row_write k) post = [] ->
  trsm_run A
    (pre ++ (trsm_panel_task target diag nt k alph rows a b ++ rest)
         ++ post) B !! (k, j)
  = trsm_tile Left diag alph (tri_tile A (k, k))
      <$> trsm_run A pre B !! (k, j).
Proof.
  intros Hj Hrest Hpost. rewrite !trsm_run_app.
  rewrite !trsm_run_frame by (intros c; by apply omap_nil_elem).
  rewrite panel_task_run. unfold trsm_row_solve.
  rewrite region_update_lookup. unfold in_sub. simpl.
  replace ((k <=? k) && (k <=? k) && (0 <=? j) && (j <=? nt - 1))
    with true; [done|].
  symmetry. zbools.
Qed.
End trsm_frame.

Section trsm_solved.
Context `{TrsmKernels}.
Context (target : Target.t) (diag : Diag) (alpha : scalar_t).
Context (A : TriangularMatrix) (mt nt lookahead : Z).

(** X21. Block row [k] of the result of the forward sweep is the solve with
    the diagonal tile [A(k, k)] of the row as the steps before [k] left
    it: the later steps do not touch a solved row. *)
Theorem forward_sweep_row_solved (B : gmap (Z * Z) tile) (k j : Z) :
  0 <= lookahead -> 0 <= k < mt -> 0 <= j < nt ->
  trsm_run A (forward_sweep target diag alpha mt nt lookahead) B !! (k, j)
  = trsm_tile Left diag (forward_alph alpha k) (tri_tile A (k, k))
      <$> trsm_run A
            (k' ← seqZ 0 k; forward_step target diag alpha mt nt lookahead k')
            B !! (k, j).
Proof.
  intros Hla Hk Hj. unfold forward_sweep.
  rewrite (seqZ_split mt k), bind_app, bind_cons by done.
  pose proof (row_write_forward_step target diag alpha mt nt lookahead
                k k Hla) as Hstep.
  rewrite Z.eqb_refl in Hstep by lia.
  unfold forward_step in *.
  rewrite omap_app, row_write_panel_task, Z.eqb_refl in Hstep by lia.
  apply sweep_row_solved; [done| |].
  - specialize (Hstep ltac:(lia) ltac:(lia)).
    by apply (app_inv_head [_]) in Hstep.
  - rewrite omap_bind, bind_none; [done|].
    intros k' Hk'. apply elem_of_seqZ in Hk'.
    pose proof (row_write_forward_step target diag alpha mt nt lookahead
                  k k' Hla) as Hk''.
    unfold forward_step in Hk''. rewrite Hk'' by lia. zbools.
Qed.

(** X22. Block row [k] of the result of the backward sweep is the solve with
    [A(k, k)] of the row as the steps of the rows below left it. *)
Theorem backward_sweep_row_solved (B : gmap (Z * Z) tile) (k j : Z) :
  0 <= lookahead -> 0 <= k < mt -> 0 <= j < nt ->
  trsm_run A (backward_sweep target diag alpha mt nt lookahead) B !! (k, j)
  = trsm_tile Left diag (backward_alph alpha mt k) (tri_tile A (k, k))
      <$> trsm_run A
            (k' ← reverse (seqZ (k + 1) (mt - (k + 1)));
             backward_step target diag alpha mt nt lookahead k')
            B !! (k, j).
Proof.
  intros Hla Hk Hj. unfold backward_sweep.
  rewrite (seqZ_split mt k) by done.
  rewrite reverse_app, reverse_cons, <- app_assoc, bind_app.
  change ([k] ++ reverse (seqZ 0 k)) with (k :: reverse (seqZ 0 k)).
  rewrite bind_cons.
  pose proof (row_write_backward_step target diag alpha mt nt lookahead
                k k Hla) as Hstep.
  rewrite Z.eqb_refl in Hstep by lia.
  unfold backward_step in *.
  rewrite omap_app, row_write_panel_task, Z.eqb_refl in Hstep by lia.
  apply sweep_row_solved; [done| |].
  - specialize (Hstep ltac:(lia) ltac:(lia)).
    by apply (app_inv_head [_]) in Hstep.
  - rewrite omap_bind, bind_none; [done|].
    intros k' Hk'. apply elem_of_reverse, elem_of_seqZ in Hk'.
    pose proof (row_write_backward_step target diag alpha mt nt lookahead
                  k k' Hla) as Hk''.
    unfold backward_step in Hk''. rewrite Hk'' by lia. zbools.
Qed.
End trsm_solved.

Section trsm_schedule.
Context `{Env} `{TrsmKernels}.
Context (target : Target.t) (diag : Diag) (alpha : scalar_t).
Context (mt nt lookahead : Z).

(** X23. Every block row and block column of [B] that a call of the
    triangular solve names lies inside the [mt]-by-[nt] grid of [B],
    and every tile of [A] it names inside the [mt]-by-[mt] grid of
    [A], provided the lookahead is not negative. *)
Theorem trsm_views_in_grid (uplo : Uplo) (c : trsm_call) (V : Sub)
    (ij : Z * Z) :
  0 <= lookahead ->
  c ∈ trsm_calls target diag alpha mt nt lookahead uplo ->
  in_sub V ij = true ->
  (V ∈ trsm_call_views c -> 0 <= ij.1 < mt /\ 0 <= ij.2 < nt)
  /\ (V ∈ trsm_call_views_A c -> 0 <= ij.1 < mt /\ 0 <= ij.2 < mt).
Proof.
  intros Hla Hc Hin.
  unfold trsm_calls, forward_sweep, backward_sweep, forward_step,
    backward_step, trsm_panel_task, trsm_lookahead_task,
    trsm_trailing_task in Hc.
  destruct uplo; trsm_in_calls Hc; subst c; simpl;
    repeat match goal with
    | H : _ ∈ reverse _ |- _ => rewrite elem_of_reverse in H
    end; seqZ_hyps;
    (split; intros HV; trsm_in_calls HV; subst V; in_sub_bounds Hin).
Qed.
End trsm_schedule.

Section trsm_edges.
Context `{Env} `{TrsmKernels}.

(** X24. A triangular solve whose right-hand side has no block row or no
    block column changes no tile, whatever the lookahead. *)
Theorem trsm_empty_matrix (target : Target.t) (diag : Diag)
    (alpha : scalar_t) (A : TriangularMatrix) (mt nt lookahead : Z)
    (uplo : Uplo) (B : gmap (Z * Z) tile) :
  mt <= 0 \/ nt <= 0 ->
  trsm_run A (trsm_calls target diag alpha mt nt lookahead uplo) B = B.
Proof.
  intros Hsize. apply trsm_run_quiet, Forall_forall. intros c Hc B'.
  unfold trsm_calls, forward_sweep, backward_sweep, forward_step,
    backward_step, trsm_panel_task, trsm_lookahead_task,
    trsm_trailing_task in Hc.
  destruct uplo; trsm_in_calls Hc; subst c; try done;
    repeat match goal with
    | H : _ ∈ reverse _ |- _ => rewrite elem_of_reverse in H
    end; seqZ_hyps; try lia;
    (apply region_update_none; intros ij; not_in_sub).
Qed.

(** X25. In a build with assertions the triangular solve aborts exactly when
    the lookahead option is given and negative, or when the operands,
    after the transposition of a solve on the right, do not have
    matching numbers of block rows and columns. *)
Theorem trsm_target_aborts_iff (target : Target.t) (side : Side)
    (diag : Diag) (alpha : scalar_t) (A : TriangularMatrix)
    (B : GeneralMatrix) (opts : Options) :
  NDEBUG = false ->
  trsm_target target side diag alpha A B opts = Aborted
  <-> (exists v, opts !! Option.Lookahead = Some v /\ i_ v < 0)
      \/ tri_mt (trsm_operands side alpha A B).1.2
         <> gen_mt (trsm_operands side alpha A B).2
      \/ tri_nt (trsm_operands side alpha A B).1.2
         <> gen_mt (trsm_operands side alpha A B).2.
Proof.
  intros Hdbg.
  unfold trsm_target, opt_lookahead, specialization_trsm, assert.
  rewrite Hdbg.
  destruct (trsm_operands side alpha A B) as [[al A'] B']. simpl.
  destruct (opts !! Option.Lookahead) as [v|] eqn:Hv; simpl.
  - destruct (Z.leb_spec 0 (i_ v)); simpl.
    + destruct (Z.eqb_spec (tri_mt A') (gen_mt B')); simpl;
        [|by intuition].
      destruct (Z.eqb_spec (tri_nt A') (gen_mt B')); simpl;
        [|by intuition].
      split; [done|]. intros [(v' & Hv' & ?)|[?|?]]; [|done..].
      simplify_eq. lia.
    + split; [|done]. intros _. left. by exists v.
  - destruct (Z.eqb_spec (tri_mt A') (gen_mt B')); simpl;
      [|by intuition].
    destruct (Z.eqb_spec (tri_nt A') (gen_mt B')); simpl;
      [|by intuition].
    split; [done|]. by intros [(v' & Hv' & ?)|[?|?]].
Qed.
End trsm_edges.

(** * The further properties at concrete inputs *)

Section more_witnesses.
Import Scalar ScalarTrsm.

Ltac in_calls_list := vm_compute; repeat first [by left | right].


(** X3 with the defaults written out after a target and a lookahead. *)
Lemma getrf_ca_explicit_defaults_witness :
  1 <= omp_get_max_threads
  /\ getrf_ca (grid 3) sample []
       (with_options Target.Devices 2 ∪ default_options)
     = getrf_ca (grid 3) sample [] (with_options Target.Devices 2).
Proof.
  split; [simpl; lia|].
  apply (@getrf_ca_explicit_defaults env kernels). simpl. lia.
Defined.


(** X6 on the system [2 x = 6] with lookahead 2. *)
Lemma gbsv_target_returns_iff_witness :
  let opts : Options := {[ Option.Lookahead := mkValue 2 ]} in
  NDEBUG = false
  /\ ((exists r,
         @gbsv_target env band_solver_1 Target.HostTask 2%Q [] 6%Q opts
         = Ok r)
      <-> (forall key v,
             key <> Option.Target -> opts !! key = Some v -> 0 <= i_ v)).
Proof.
  cbv zeta. split; [reflexivity|].
  apply (@gbsv_target_returns_iff env band_solver_1). reflexivity.
Defined.

(** X7 with two and two plus 2^32 panel threads. *)
Lemma gbsv_panel_threads_narrowed_witness :
  0 <= 2 /\ 0 <= 2 + 1 * 2 ^ 32
  /\ @gbsv env band_solver_1 2%Q [] 6%Q
       (<[Option.MaxPanelThreads := mkValue (2 + 1 * 2 ^ 32)]> ∅)
     = @gbsv env band_solver_1 2%Q [] 6%Q
         (<[Option.MaxPanelThreads := mkValue 2]> ∅).
Proof.
  split; [lia|]. split; [lia|].
  apply (@gbsv_panel_threads_narrowed env band_solver_1); lia.
Defined.

(** X8 at the block update of step 0 on the 2-by-2 grid. *)
Lemma getrf_ca_views_in_grid_witness :
  let c := Gemm Target.HostTask (sub 1 1 0 0) (sub 0 0 1 1) (sub 1 1 1 1)
             ColMajor 1 2 in
  0 <= 1
  /\ c ∈ getrf_ca_calls Target.HostTask (grid 2) 16 2 1
  /\ sub 1 1 1 1 ∈ call_views c
  /\ in_sub (sub 1 1 1 1) (1, 1) = true
  /\ 0 <= 1 < mt (grid 2) /\ 0 <= 1 < nt (grid 2).
Proof.
  cbv zeta.
  split; [lia|]. split; [in_calls_list|]. split; [in_calls_list|].
  split; [reflexivity|].
  apply (getrf_ca_views_in_grid Target.HostTask (grid 2) 16 2 1
           (Gemm Target.HostTask (sub 1 1 0 0) (sub 0 0 1 1) (sub 1 1 1 1)
              ColMajor 1 2) (sub 1 1 1 1) (1, 1));
    [lia|in_calls_list|in_calls_list|reflexivity].
Defined.

(** X9 at the release of panel 0 on the 2-by-2 grid. *)
Lemma device_calls_on_devices_only_witness :
  ReleasePanel 0 ∈ getrf_ca_calls Target.Devices (grid 2) 16 2 1
  /\ device_call (ReleasePanel 0) = true
  /\ Target.Devices = Target.Devices
  /\ (forall k, ReleasePanel 0 = ReleasePanel k -> 0 < 1).
Proof.
  split; [in_calls_list|]. split; [reflexivity|].
  apply (device_calls_on_devices_only Target.Devices (grid 2) 16 2 1
           (ReleasePanel 0)); [in_calls_list|reflexivity].
Defined.

(** X10 at step 0 of the 3-by-3 grid with lookahead 1: two updates. *)
Lemma count_gemm_step_witness :
  0 <= 1 /\ 0 <= 0 < nt (grid 3)
  /\ count_calls is_gemm (getrf_ca_step Target.HostTask (grid 3) 16 2 1 0)
     = Z.to_nat (Z.min (1 + 1) (nt (grid 3) - 0 - 1)).
Proof.
  split; [lia|]. split; [simpl; lia|].
  apply count_gemm_step; simpl; lia.
Defined.

(** X11 at panel 1 and block column 0 of the 3-by-3 grid. *)
Lemma pivots_applied_exactly_once_witness :
  0 <= 1 /\ 0 <= 1 < Z.min (mt (grid 3)) (nt (grid 3))
  /\ 0 <= 0 < nt (grid 3)
  /\ count_calls (permutes 1 0)
       (getrf_ca_calls Target.HostTask (grid 3) 16 2 1)
     = 1%nat.
Proof.
  split; [lia|]. split; [simpl; lia|]. split; [simpl; lia|].
  apply pivots_applied_exactly_once; simpl; lia.
Defined.

(** X12 at step 0 of the 3-by-3 grid with lookahead 1. *)
Lemma list_bcast_tags_distinct_witness :
  0 <= 0 /\ 0 <= 1
  /\ NoDup (bc_tag <$> (panel_bcast_list (grid 3) 0
                        ++ trailing_bcast_list (grid 3) 1 0)).
Proof.
  split; [lia|]. split; [lia|]. apply list_bcast_tags_distinct; lia.
Defined.

(** X13 at step 1 of the 3-by-3 sample and its tile (0, 2). *)
Lemma step_leaves_finished_part_witness :
  0 <= 1 /\ (0 < 1 \/ 2 < 1)
  /\ mat_A (run (getrf_ca_step Target.HostTask (grid 3) 16 2 1 1)
              (mkState sample [[]; []; []] ∅)) !! (0, 2)
     = mat_A (mkState sample [[]; []; []] ∅) !! (0, 2).
Proof.
  split; [lia|]. split; [left; lia|].
  apply (@step_leaves_finished_part kernels); [lia|left; lia].
Defined.

(** X14 at the tile (0, 2) of the 3-by-3 sample. *)
Lemma U_row_final_witness :
  0 <= 1 /\ 0 <= 0 < Z.min (mt (grid 3)) (nt (grid 3)) /\ 0 <= 2
  /\ (specialization_getrf_ca Target.HostTask (grid 3) 16 2 1 sample []).1
       !! (0, 2)
     = mat_A (run (calls_before Target.HostTask (grid 3) 16 2 1 0
                   ++ getrf_ca_step Target.HostTask (grid 3) 16 2 1 0)
                (mkState sample [] ∅)) !! (0, 2).
Proof.
  split; [lia|]. split; [simpl; lia|]. split; [lia|].
  apply (@U_row_final kernels); simpl; lia.
Defined.

(** X15 at the interchange of panel 1 in the finished block column 0. *)
Lemma L_column_only_permuted_witness :
  let c := PermuteRows Target.HostTask (sub 1 1 0 0) 1 ColMajor None in
  0 <= 1 /\ 0 <= 0 < Z.min (mt (grid 2)) (nt (grid 2))
  /\ c ∈ calls_after Target.HostTask (grid 2) 16 2 1 0
  /\ writes c (1, 0) = true
  /\ exists k', 0 < k' /\ applies_pivots k' c = true.
Proof.
  cbv zeta.
  split; [lia|]. split; [simpl; lia|]. split; [in_calls_list|].
  split; [reflexivity|].
  apply (L_column_only_permuted Target.HostTask (grid 2) 16 2 1
           (PermuteRows Target.HostTask (sub 1 1 0 0) 1 ColMajor None)
           0 1); [lia|simpl; lia|in_calls_list|reflexivity].
Defined.

(** X17 on the grid without tiles. *)
Lemma getrf_ca_empty_matrix_witness :
  Z.min (mt (grid 0)) (nt (grid 0)) = 0
  /\ specialization_getrf_ca Target.Devices (grid 0) 16 2 1 ∅ [[]]
     = (∅, []).
Proof.
  split; [reflexivity|]. apply (@getrf_ca_empty_matrix kernels). reflexivity.
Defined.

(** X18 at a 3-by-3 lower triangle on the device target: lookahead 0 and
    lookahead 2. *)
Lemma trsm_lookahead_invariant_witness :
  0 <= 0 /\ 0 <= 2
  /\ (forall al x y be c,
        gemm_tile Target.Devices al x y be c
        = gemm_tile Target.HostTask al x y be c)
  /\ specialization_trsm Target.Devices Left NonUnit 1%Q L3 B32 0
     = specialization_trsm Target.Devices Left NonUnit 1%Q L3 B32 2.
Proof.
  split; [lia|]. split; [lia|]. split; [reflexivity|].
  apply (@trsm_lookahead_invariant env kernels trsm_kernels);
    [lia|lia|reflexivity].
Defined.

(** X19 at the last of three block rows, with [alpha = 3/2]. *)
Lemma forward_sweep_row_history_witness :
  0 <= 1 /\ 0 <= 2 < 3
  /\ omap (row_write 2)
       (forward_sweep Target.HostTask NonUnit (3 # 2)%Q 3 2 1)
     = ((fun k => (Update k, forward_alph (3 # 2)%Q k)) <$> seqZ 0 2)
       ++ [(Solve, forward_alph (3 # 2)%Q 2)].
Proof.
  split; [lia|]. split; [lia|].
  apply (@forward_sweep_row_history kernels trsm_kernels); lia.
Defined.

(** X20 at the first of three block rows, with [alpha = 3/2]. *)
Lemma backward_sweep_row_history_witness :
  0 <= 1 /\ 0 <= 0 < 3
  /\ omap (row_write 0)
       (backward_sweep Target.HostTask NonUnit (3 # 2)%Q 3 2 1)
     = ((fun k => (Update k, backward_alph (3 # 2)%Q 3 k))
          <$> reverse (seqZ (0 + 1) (3 - (0 + 1))))
       ++ [(Solve, backward_alph (3 # 2)%Q 3 0)].
Proof.
  split; [lia|]. split; [lia|].
  apply (@backward_sweep_row_history kernels trsm_kernels); lia.
Defined.

(** X21 at block row 1 of the 3-by-2 right-hand side. *)
Lemma forward_sweep_row_solved_witness :
  0 <= 1 /\ 0 <= 1 < 3 /\ 0 <= 0 < 2
  /\ trsm_run L3 (forward_sweep Target.HostTask NonUnit 1%Q 3 2 1)
       (g_tiles B32) !! (1, 0)
     = trsm_tile Left NonUnit (forward_alph 1%Q 1) (tri_tile L3 (1, 1))
         <$> trsm_run L3
               (k' ← seqZ 0 1;
                forward_step Target.HostTask NonUnit 1%Q 3 2 1 k')
               (g_tiles B32) !! (1, 0).
Proof.
  split; [lia|]. split; [lia|]. split; [lia|].
  apply (@forward_sweep_row_solved kernels trsm_kernels); lia.
Defined.

(** X22 at block row 1 of the 3-by-2 right-hand side. *)
Lemma backward_sweep_row_solved_witness :
  0 <= 1 /\ 0 <= 1 < 3 /\ 0 <= 0 < 2
  /\ trsm_run U3 (backward_sweep Target.HostTask NonUnit 1%Q 3 2 1)
       (g_tiles B32) !! (1, 0)
     = trsm_tile Left NonUnit (backward_alph 1%Q 3 1) (tri_tile U3 (1, 1))
         <$> trsm_run U3
               (k' ← reverse (seqZ (1 + 1) (3 - (1 + 1)));
                backward_step Target.HostTask NonUnit 1%Q 3 2 1 k')
               (g_tiles B32) !! (1, 0).
Proof.
  split; [lia|]. split; [lia|]. split; [lia|].
  apply (@backward_sweep_row_solved kernels trsm_kernels); lia.
Defined.

(** X23 at the lookahead update of block row 1 in step 0 of a forward
    sweep. *)
Lemma trsm_views_in_grid_witness :
  let c := internal_gemm Target.HostTask (-1)%Q (sub 1 1 0 0) (sub 0 0 0 1)
             1%Q (sub 1 1 0 1) (Some 1) in
  0 <= 1
  /\ c ∈ trsm_calls Target.HostTask NonUnit 1%Q 3 2 1 Lower
  /\ in_sub (sub 1 1 0 1) (1, 1) = true
  /\ (sub 1 1 0 1 ∈ trsm_call_views c -> 0 <= 1 < 3 /\ 0 <= 1 < 2)
  /\ (sub 1 1 0 1 ∈ trsm_call_views_A c -> 0 <= 1 < 3 /\ 0 <= 1 < 3).
Proof.
  cbv zeta.
  assert (internal_gemm Target.HostTask (-1)%Q (sub 1 1 0 0) (sub 0 0 0 1)
            1%Q (sub 1 1 0 1) (Some 1)
          ∈ trsm_calls Target.HostTask NonUnit 1%Q 3 2 1 Lower) as Hc.
  { apply (list_elem_of_lookup_2 _ 6%nat). reflexivity. }
  split; [lia|]. split; [exact Hc|]. split; [reflexivity|].
  apply (@trsm_views_in_grid kernels trsm_kernels Target.HostTask NonUnit
           1%Q 3 2 1 Lower _ (sub 1 1 0 1) (1, 1));
    [lia|exact Hc|reflexivity].
Defined.

(** X24 at a right-hand side with three block rows and no block column. *)
Lemma trsm_empty_matrix_witness :
  (3 <= 0 \/ 0 <= 0)
  /\ trsm_run L3 (trsm_calls Target.Devices NonUnit 1%Q 3 0 1 Lower)
       (g_tiles B32)
     = g_tiles B32.
Proof.
  split; [right; lia|].
  apply (@trsm_empty_matrix kernels trsm_kernels). right. lia.
Defined.

(** X25 at a solve on the right with lookahead -1. *)
Lemma trsm_target_aborts_iff_witness :
  let opts : Options := {[ Option.Lookahead := mkValue (-1) ]} in
  NDEBUG = false
  /\ (trsm_target Target.HostTask Right NonUnit 1%Q L3 B32 opts = Aborted
      <-> (exists v, opts !! Option.Lookahead = Some v /\ i_ v < 0)
          \/ tri_mt (trsm_operands Right 1%Q L3 B32).1.2
             <> gen_mt (trsm_operands Right 1%Q L3 B32).2
          \/ tri_nt (trsm_operands Right 1%Q L3 B32).1.2
             <> gen_mt (trsm_operands Right 1%Q L3 B32).2).
Proof.
  cbv zeta. split; [reflexivity|].
  apply (@trsm_target_aborts_iff env kernels trsm_kernels). reflexivity.
Defined.
End more_witnesses.

